(** * A shallow embedding of [imagine_galmag/field.py]

    The adapter classes [GalMagMagneticFieldBase], [GalMagDiskField] and
    [GalMagHaloField] are modelled as programs in a state-and-exception
    monad.  The state is the shared parameter mapping [self.parameters]
    (a Python dict, kept as an insertion-ordered association list), the
    cache [self.galmag] and a trace of the calls made to GalMag's
    [get_B_field].  Numbers are exact rationals: astropy's float arithmetic
    is idealised as real arithmetic. *)

From Stdlib Require Import List String Ascii ZArith QArith Bool Lia.
Import ListNotations.
Open Scope string_scope.

(** ** astropy units

    A unit is a scale factor to SI and a dimension vector over the SI
    base quantities (length, time, mass, electric current). *)

Record dims := Dims { d_len : Z; d_time : Z; d_mass : Z; d_cur : Z }.

Record unit_ := Unit { uscale : Q; udims : dims }.

Definition dims_eqb (a b : dims) : bool :=
  Z.eqb (d_len a) (d_len b) && Z.eqb (d_time a) (d_time b) &&
  Z.eqb (d_mass a) (d_mass b) && Z.eqb (d_cur a) (d_cur b).

Definition dims_add (a b : dims) : dims :=
  Dims (d_len a + d_len b) (d_time a + d_time b)
       (d_mass a + d_mass b) (d_cur a + d_cur b).

Definition dims_sub (a b : dims) : dims :=
  Dims (d_len a - d_len b) (d_time a - d_time b)
       (d_mass a - d_mass b) (d_cur a - d_cur b).

Definition dims_zero : dims := Dims 0 0 0 0.

Definition unit_mul (u v : unit_) : unit_ :=
  Unit (uscale u * uscale v) (dims_add (udims u) (udims v)).

Definition unit_div (u v : unit_) : unit_ :=
  Unit (uscale u / uscale v) (dims_sub (udims u) (udims v)).

(** The units named in the source. *)
Definition u_m : unit_ := Unit 1 (Dims 1 0 0 0).
Definition u_s : unit_ := Unit 1 (Dims 0 1 0 0).
Definition u_kpc : unit_ := Unit (30856775814913673000 # 1) (Dims 1 0 0 0).
Definition u_km : unit_ := Unit (1000 # 1) (Dims 1 0 0 0).
Definition u_cm : unit_ := Unit (1 # 100) (Dims 1 0 0 0).
(** [u.microgauss] is 1e-10 tesla, a tesla being kg s^-2 A^-1. *)
Definition u_microgauss : unit_ := Unit (1 # 10000000000) (Dims 0 (-2) 1 (-1)).
Definition u_dimensionless_unscaled : unit_ := Unit 1 dims_zero.
Definition u_per_s : unit_ := unit_div u_dimensionless_unscaled u_s.   (* 1/u.s *)
Definition u_cm2_per_s : unit_ := unit_div (unit_mul u_cm u_cm) u_s.   (* u.cm*u.cm/u.s *)
Definition u_km_per_s : unit_ := unit_div u_km u_s.                    (* u.km/u.s *)

(** ** Python values

    The values a parameter mapping can hold: bare numbers, booleans,
    astropy quantities, numpy arrays of numbers, strings and functions
    (profile functions are only ever passed along, so they are named). *)

Inductive pyval :=
| VNum (q : Q)
| VBool (b : bool)
| VQty (q : Q) (u : unit_)
| VArr (l : list Q)
| VStr (s : string)
| VFun (name : string).

Inductive exn :=
| KeyError (k : string)
| UnitConversionError
| TypeError
| AttributeError
| ValueError
| GalMagError.   (* any failure raised inside GalMag's generator *)

Inductive res (A : Type) := Ok (a : A) | Err (e : exn).
Arguments Ok {A} a.
Arguments Err {A} e.

Definition res_bind {A B} (r : res A) (f : A -> res B) : res B :=
  match r with Ok a => f a | Err e => Err e end.

(** [pval << unit]: a quantity is converted (its dimension must agree), a
    bare number or array gets the unit attached, a boolean counts as 0 or 1;
    anything else cannot become a quantity. *)
Definition lshift_value (v : pyval) (u : unit_) : res pyval :=
  match v with
  | VNum q => Ok (VNum q)
  | VBool b => Ok (VNum (if b then 1 else 0))
  | VQty q u' =>
      if dims_eqb (udims u') (udims u)
      then Ok (VNum (q * uscale u' / uscale u))
      else Err UnitConversionError
  | VArr l => Ok (VArr l)
  | VStr _ | VFun _ => Err TypeError
  end.

(** Scalar view of a value for arithmetic: its magnitude and, for a
    quantity, its unit.  Arithmetic on arrays, strings or functions is
    outside the model and fails. *)
Definition scalar (v : pyval) : option (Q * option unit_) :=
  match v with
  | VNum q => Some (q, None)
  | VBool b => Some (if b then 1 else 0, None)
  | VQty q u => Some (q, Some u)
  | _ => None
  end.

Definition of_scalar (q : Q) (u : option unit_) : pyval :=
  match u with None => VNum q | Some u => VQty q u end.

Definition opt_unit_mul (a b : option unit_) : option unit_ :=
  match a, b with
  | None, None => None
  | Some u, None | None, Some u => Some u
  | Some u, Some v => Some (unit_mul u v)
  end.

Definition opt_unit_div (a b : option unit_) : option unit_ :=
  match a, b with
  | None, None => None
  | Some u, None => Some u
  | None, Some v => Some (unit_div u_dimensionless_unscaled v)
  | Some u, Some v => Some (unit_div u v)
  end.

Definition py_mul (a b : pyval) : res pyval :=
  match scalar a, scalar b with
  | Some (x, u), Some (y, v) => Ok (of_scalar (x * y) (opt_unit_mul u v))
  | _, _ => Err TypeError
  end.

Definition py_div (a b : pyval) : res pyval :=
  match scalar a, scalar b with
  | Some (x, u), Some (y, v) => Ok (of_scalar (x / y) (opt_unit_div u v))
  | _, _ => Err TypeError
  end.

Definition py_neg (a : pyval) : res pyval :=
  match scalar a with
  | Some (x, u) => Ok (of_scalar (- x) u)
  | None => Err TypeError
  end.

(** [a ** 2] *)
Definition py_sq (a : pyval) : res pyval := py_mul a a.

(** [q.to_value(u.dimensionless_unscaled)]: only a quantity has
    [to_value], and its unit must be dimensionless. *)
Definition to_value_dimensionless (v : pyval) : res Q :=
  match v with
  | VQty q u =>
      if dims_eqb (udims u) dims_zero then Ok (q * uscale u)
      else Err UnitConversionError
  | _ => Err AttributeError
  end.

(** ** Python dicts

    An insertion-ordered association list: assigning to a present key
    keeps its position, a new key goes to the end, [del] of an absent key
    raises [KeyError]. *)

Definition dict := list (string * pyval).

Fixpoint dict_get (k : string) (d : dict) : option pyval :=
  match d with
  | [] => None
  | (k', v) :: d' => if String.eqb k k' then Some v else dict_get k d'
  end.

Fixpoint dict_set (k : string) (v : pyval) (d : dict) : dict :=
  match d with
  | [] => [(k, v)]
  | (k', v') :: d' =>
      if String.eqb k k' then (k', v) :: d' else (k', v') :: dict_set k v d'
  end.

Fixpoint dict_remove (k : string) (d : dict) : dict :=
  match d with
  | [] => []
  | (k', v') :: d' => if String.eqb k k' then d' else (k', v') :: dict_remove k d'
  end.

(** [del d[k]] *)
Definition dict_del (k : string) (d : dict) : res dict :=
  match dict_get k d with
  | Some _ => Ok (dict_remove k d)
  | None => Err (KeyError k)
  end.

(** [d.update(e)]: the entries of [e] assigned in order. *)
Definition dict_update (d e : dict) : dict :=
  fold_left (fun acc kv => dict_set (fst kv) (snd kv) acc) e d.

(** [d[k]] *)
Definition dict_getitem (k : string) (d : dict) : res pyval :=
  match dict_get k d with Some v => Ok v | None => Err (KeyError k) end.

(** A unit table ([PARAMETER_UNITS] and the like). *)
Definition unit_table := list (string * unit_).

Fixpoint units_get (k : string) (t : unit_table) : option unit_ :=
  match t with
  | [] => None
  | (k', u) :: t' => if String.eqb k k' then Some u else units_get k t'
  end.

(** ** Strings: ['mode_{0:d}'.format(i)], ['mode_' in k], [k[5:]], [int(s)] *)

Definition digit_char (n : nat) : ascii := ascii_of_nat (48 + n).

Fixpoint nat_digits (fuel n : nat) (acc : string) : string :=
  match fuel with
  | O => acc
  | S fuel' =>
      let acc' := String (digit_char (n mod 10)) acc in
      if Nat.ltb n 10 then acc' else nat_digits fuel' (n / 10) acc'
  end.

(** ['{0:d}'.format(n)] for a natural number. *)
Definition format_d (n : nat) : string := nat_digits (S n) n "".

Definition mode_name (i : nat) : string := "mode_" ++ format_d i.

(** [needle in s] for strings. *)
Fixpoint str_contains (needle s : string) : bool :=
  String.prefix needle s ||
  match s with
  | EmptyString => false
  | String _ s' => str_contains needle s'
  end.

(** [s[n:]] *)
Definition str_from (n : nat) (s : string) : string :=
  substring n (String.length s - n) s.

Definition char_digit (c : ascii) : option Z :=
  let n := nat_of_ascii c in
  if (Nat.leb 48 n && Nat.leb n 57)%bool then Some (Z.of_nat (n - 48)) else None.

Fixpoint parse_digits (s : string) (acc : Z) : option Z :=
  match s with
  | EmptyString => Some acc
  | String c s' =>
      match char_digit c with
      | Some d => parse_digits s' (10 * acc + d)
      | None => None
      end
  end.

(** [int(s)] on a decimal literal with an optional sign; any other
    string raises [ValueError].  (Python also accepts surrounding
    whitespace and [_] separators, which this model leaves out.) *)
Definition py_int (s : string) : res Z :=
  let unsigned (t : string) :=
    match t with
    | EmptyString => None
    | _ => parse_digits t 0
    end in
  let r := match s with
           | String "-" t => option_map Z.opp (unsigned t)
           | String "+" t => unsigned t
           | _ => unsigned s
           end in
  match r with Some z => Ok z | None => Err ValueError end.

(** [max(xs)]: raises [ValueError] on an empty sequence. *)
Definition py_max (xs : list Z) : res Z :=
  match xs with
  | [] => Err ValueError
  | x :: xs' => Ok (fold_left Z.max xs' x)
  end.

Fixpoint res_map {A B} (f : A -> res B) (xs : list A) : res (list B) :=
  match xs with
  | [] => Ok []
  | x :: xs' =>
      res_bind (f x) (fun y => res_bind (res_map f xs') (fun ys => Ok (y :: ys)))
  end.

(** ** GalMag's native field and the returned array

    A 3-d numpy array is a shape and an element function; GalMag's field
    object exposes the components [x], [y], [z]. *)

Record arr3 := Arr3 { ashape : nat * nat * nat; aget : nat -> nat -> nat -> Q }.

Record native_field := NativeField { Bx : arr3; By : arr3; Bz : arr3 }.

(** A 4-d array tagged with a unit ([B_array << u.microgauss]). *)
Record qarray4 := QArray4 {
  qshape : nat * nat * nat * nat;
  qget : nat -> nat -> nat -> nat -> Q;
  qunit : unit_ }.

Definition shape_eqb (a b : nat * nat * nat) : bool :=
  match a, b with
  | (a1, a2, a3), (b1, b2, b3) => Nat.eqb a1 b1 && Nat.eqb a2 b2 && Nat.eqb a3 b3
  end.

(** ** The adapter's state and the exception-and-state monad *)

(** The arguments GalMag's generator was built with:
    [box=box_dimensionless, resolution=grid.resolution, grid_type=grid.grid_type]. *)
Record gen_args := GenArgs {
  gen_box : list Q;
  gen_resolution : nat * nat * nat;
  gen_grid_type : string }.

(** Per-instance data fixed at construction. *)
Record config := Config {
  keep_galmag_field : bool;
  galmag_gen : gen_args;
  parameter_units : unit_table;
  field_options : dict;        (* [self._field_options] *)
  number_of_modes : Z }.       (* [self._number_of_modes] (disk only) *)

(** IMAGINE's [MagneticField.data_shape]: the grid resolution and 3. *)
Definition data_shape (c : config) : nat * nat * nat * nat :=
  (gen_resolution (galmag_gen c), 3%nat).

(** The mutable part: the shared mapping [self.parameters], the cache
    [self.galmag], and the log of the mappings [get_B_field] was called
    with. *)
Record state := State {
  parameters : dict;
  galmag : option native_field;
  gen_calls : list dict }.

Definition M (A : Type) := state -> state * res A.

Definition mret {A} (a : A) : M A := fun s => (s, Ok a).

Definition mbind {A B} (m : M A) (f : A -> M B) : M B :=
  fun s => match m s with
           | (s', Ok a) => f a s'
           | (s', Err e) => (s', Err e)
           end.

Notation "'let*' x ':=' c 'in' k" := (mbind c (fun x => k))
  (at level 200, x name, c at level 100, k at level 200).

Definition lift {A} (r : res A) : M A := fun s => (s, r).

Definition get_params : M dict := fun s => (s, Ok (parameters s)).

(** [self.parameters[k]] *)
Definition param_get (k : string) : M pyval :=
  fun s => (s, dict_getitem k (parameters s)).

(** [self.parameters[k] = v] *)
Definition param_set (k : string) (v : pyval) : M unit :=
  fun s => (State (dict_set k v (parameters s)) (galmag s) (gen_calls s), Ok tt).

(** [del self.parameters[k]] *)
Definition param_del (k : string) : M unit :=
  fun s => match dict_del k (parameters s) with
           | Ok d => (State d (galmag s) (gen_calls s), Ok tt)
           | Err e => (s, Err e)
           end.

Definition get_cache : M (option native_field) := fun s => (s, Ok (galmag s)).

Definition set_cache (f : native_field) : M unit :=
  fun s => (State (parameters s) (Some f) (gen_calls s), Ok tt).

Section Adapter.

(** GalMag's [B_generator.get_B_field], an external collaborator: any
    function of the generator's construction arguments and the keyword
    mapping it receives. *)
Variable get_B_field : gen_args -> dict -> res native_field.

(** [self.galmag_gen.get_B_field] applied to the keyword mapping, logged. *)
Definition call_get_B_field (g : gen_args) (m : dict) : M native_field :=
  fun s => (State (parameters s) (galmag s) (gen_calls s ++ [m]),
            get_B_field g m).

(** The conversion loop of [GalMagMagneticFieldBase.compute_field]:
    entries with a declared unit become [(pval << unit).value]. *)
Fixpoint convert_parameters (units : unit_table) (ps : dict) (acc : dict) : res dict :=
  match ps with
  | [] => Ok acc
  | (pname, pval) :: ps' =>
      res_bind
        (match units_get pname units with
         | Some u => lshift_value pval u
         | None => Ok pval
         end)
        (fun pval' => convert_parameters units ps' (dict_set pname pval' acc))
  end.

(** [B_array = np.empty(self.data_shape)]; the three component
    assignments (each needs the component to have the grid's shape;
    numpy's broadcasting of smaller shapes is left out); [<< u.microgauss]. *)
Definition build_B_array (c : config) (f : native_field) : res qarray4 :=
  let r := gen_resolution (galmag_gen c) in
  if shape_eqb (ashape (Bx f)) r then
    if shape_eqb (ashape (By f)) r then
      if shape_eqb (ashape (Bz f)) r then
        Ok (QArray4 (data_shape c)
              (fun i j k comp =>
                 match comp with
                 | O => aget (Bx f) i j k
                 | S O => aget (By f) i j k
                 | _ => aget (Bz f) i j k
                 end)
              u_microgauss)
      else Err ValueError
    else Err ValueError
  else Err ValueError.

(** [GalMagMagneticFieldBase.compute_field] *)
Definition base_compute_field (c : config) (seed : Z) : M qarray4 :=
  let* cached := get_cache in
  let* galmag_B :=
    match cached with
    | Some f => mret f
    | None =>
        let* ps := get_params in
        let* parameters := lift (convert_parameters (parameter_units c) ps []) in
        let parameters := dict_update parameters (field_options c) in
        let* f := call_get_B_field (galmag_gen c) parameters in
        if keep_galmag_field c then
          let* _ := set_cache f in mret f
        else mret f
    end in
  lift (build_B_array c galmag_B).

(** One entry of [disk_mode_norm]: [(self.parameters[name] << u.microgauss).value],
    or [0] for an absent mode.  (An array-valued mode would make a ragged
    array; the model rejects it.) *)
Definition mode_entry (ps : dict) (i : nat) : res Q :=
  match dict_get (mode_name (S i)) ps with
  | Some v =>
      res_bind (lshift_value v u_microgauss)
        (fun w => match w with VNum q => Ok q | _ => Err TypeError end)
  | None => Ok 0
  end.

(** The loop building [disk_mode_norm] over [range(self._number_of_modes)]. *)
Definition disk_mode_norm (c : config) (ps : dict) : res (list Q) :=
  res_map (mode_entry ps) (seq 0 (Z.to_nat (number_of_modes c))).

(** [GalMagDiskField.compute_field] *)
Definition disk_compute_field (c : config) (seed : Z) : M qarray4 :=
  let* ps := get_params in
  let* modes := lift (disk_mode_norm c ps) in
  let* _ := param_set "disk_modes_normalization" (VArr modes) in
  let* h := param_get "disk_height" in
  let* S := param_get "disk_shear_normalization" in
  let* alpha := param_get "disk_alpha_effect" in
  let* beta := param_get "disk_turbulent_diffusivity" in
  let* Ralpha := lift (res_bind (py_mul h alpha) (fun x =>
                       res_bind (py_div x beta) to_value_dimensionless)) in
  let* _ := param_set "disk_turbulent_induction" (VNum Ralpha) in
  let* Romega := lift (res_bind (py_sq h) (fun x =>
                       res_bind (py_mul x S) (fun y =>
                       res_bind (py_div y beta) to_value_dimensionless))) in
  let* _ := param_set "disk_dynamo_number" (VNum (Ralpha * Romega)) in
  let* field := base_compute_field c seed in
  let* _ := param_del "disk_modes_normalization" in
  let* _ := param_del "disk_dynamo_number" in
  let* _ := param_del "disk_turbulent_induction" in
  mret field.

(** [GalMagHaloField.compute_field] *)
Definition halo_compute_field (c : config) (seed : Z) : M qarray4 :=
  let* r := param_get "halo_radius" in
  let* V := param_get "halo_rotation_normalization" in
  let* beta := param_get "halo_turbulent_diffusivity" in
  let* alpha := param_get "halo_alpha_effect" in
  let* Ralpha := lift (res_bind (py_mul r alpha) (fun x =>
                       res_bind (py_div x beta) to_value_dimensionless)) in
  let* _ := param_set "halo_turbulent_induction" (VNum Ralpha) in
  let* Romega := lift (res_bind (py_neg r) (fun x =>
                       res_bind (py_mul x V) (fun y =>
                       res_bind (py_div y beta) to_value_dimensionless))) in
  let* _ := param_set "halo_rotation_induction" (VNum Romega) in
  let* field := base_compute_field c seed in
  let* _ := param_del "halo_rotation_induction" in
  let* _ := param_del "halo_turbulent_induction" in
  mret field.

End Adapter.

(** ** Class tables and construction *)

(** [GalMagDiskField.PARAMETER_NAMES] *)
Definition disk_PARAMETER_NAMES : list string :=
  ["disk_height"; "disk_radius"; "disk_regularization_radius";
   "disk_ref_r_cylindrical"; "disk_shear_normalization";
   "disk_turbulent_diffusivity"; "disk_alpha_effect"].

(** [GalMagDiskField.PARAMETER_UNITS] *)
Definition disk_PARAMETER_UNITS : unit_table :=
  [("disk_height", u_kpc); ("disk_radius", u_kpc);
   ("disk_regularization_radius", u_kpc); ("disk_ref_r_cylindrical", u_kpc);
   ("disk_shear_normalization", u_per_s);
   ("disk_turbulent_diffusivity", u_cm2_per_s);
   ("disk_alpha_effect", u_km_per_s)].

(** [GalMagDiskField.parameter_names]: the fixed list and [mode_1 .. mode_n]. *)
Definition disk_parameter_names (n : Z) : list string :=
  (disk_PARAMETER_NAMES ++ map (fun i => mode_name (S i)) (seq 0 (Z.to_nat n)))%list.

(** [GalMagDiskField.parameter_units]: the mode units, updated with
    [PARAMETER_UNITS] (listed first, so that it wins a lookup). *)
Definition disk_parameter_units (n : Z) : unit_table :=
  (disk_PARAMETER_UNITS ++ map (fun i => (mode_name (S i), u_microgauss)) (seq 0 (Z.to_nat n)))%list.

(** [GalMagHaloField.PARAMETER_NAMES] *)
Definition halo_PARAMETER_NAMES : list string :=
  ["halo_radius"; "halo_ref_radius"; "halo_ref_z"; "halo_ref_Bphi";
   "halo_rotation_characteristic_radius"; "halo_rotation_characteristic_height";
   "halo_rotation_normalization"; "halo_turbulent_diffusivity"; "halo_alpha_effect"].

(** [GalMagHaloField.PARAMETER_UNITS] *)
Definition halo_PARAMETER_UNITS : unit_table :=
  [("halo_radius", u_kpc); ("halo_ref_radius", u_kpc); ("halo_ref_z", u_kpc);
   ("halo_ref_Bphi", u_microgauss);
   ("halo_rotation_characteristic_radius", u_kpc);
   ("halo_rotation_characteristic_height", u_kpc);
   ("halo_rotation_normalization", u_km_per_s);
   ("halo_turbulent_diffusivity", u_cm2_per_s);
   ("halo_alpha_effect", u_km_per_s)].

(** The IMAGINE grid the adapter is built on. *)
Record grid := Grid {
  box : list pyval;
  resolution : nat * nat * nat;
  grid_type : string }.

(** [q.to_value(u.kpc)] for one entry of [grid.box]. *)
Definition to_value_kpc (v : pyval) : res Q :=
  match v with
  | VQty q u =>
      if dims_eqb (udims u) (udims u_kpc) then Ok (q * uscale u / uscale u_kpc)
      else Err UnitConversionError
  | _ => Err AttributeError
  end.

(** [GalMagMagneticFieldBase.__init__]: the generator arguments. *)
Definition base_init (g : grid) : res gen_args :=
  res_bind (res_map to_value_kpc (box g))
    (fun box_dimensionless => Ok (GenArgs box_dimensionless (resolution g) (grid_type g))).

(** [max([int(k[5:]) for k in parameters if 'mode_' in k])] *)
Definition infer_number_of_modes (parameters : dict) : res Z :=
  res_bind (res_map (fun k => py_int (str_from 5 k))
                    (filter (str_contains "mode_") (map fst parameters)))
           py_max.

(** The keyword arguments of [GalMagDiskField.__init__] specific to it. *)
Record disk_kwargs := DiskKwargs {
  number_of_modes_arg : option Z;     (* [None] when omitted *)
  disk_shear_function : pyval;
  disk_rotation_function : pyval;
  disk_height_function : pyval;
  disk_field_decay : bool;
  disk_newman_boundary_condition_envelope : bool }.

Definition default_disk_kwargs : disk_kwargs :=
  DiskKwargs None (VFun "Clemens_Milky_Way_shear_rate")
    (VFun "Clemens_Milky_Way_rotation_curve") (VFun "exponential_scale_height")
    true false.

(** [GalMagDiskField.__init__]: the instance configuration and its
    initial state (empty cache). *)
Definition disk_init (g : grid) (parameters : dict) (keep : bool)
    (kw : disk_kwargs) : res (config * state) :=
  res_bind
    (match number_of_modes_arg kw with
     | Some n => Ok n
     | None => infer_number_of_modes parameters
     end)
    (fun n =>
       res_bind (base_init g) (fun ga =>
         Ok (Config keep ga (disk_parameter_units n)
               [("disk_shear_function", disk_shear_function kw);
                ("disk_rotation_function", disk_rotation_function kw);
                ("disk_height_function", disk_height_function kw);
                ("disk_field_decay", VBool (disk_field_decay kw));
                ("disk_newman_boundary_condition_envelope",
                  VBool (disk_newman_boundary_condition_envelope kw))]
               n,
             State parameters None []))).

(** The keyword arguments of [GalMagHaloField.__init__] specific to it;
    Python does not check their types, so each is any value. *)
Record halo_kwargs := HaloKwargs {
  halo_symmetric_field_arg : pyval;
  halo_rotation_function_arg : pyval;
  halo_alpha_function_arg : pyval;
  halo_n_free_decay_modes_arg : pyval;
  halo_dynamo_type_arg : pyval;
  halo_compute_only_one_quadrant_arg : pyval;
  halo_growing_mode_only_arg : pyval;
  halo_Galerkin_ngrid_arg : pyval }.

Definition default_halo_kwargs : halo_kwargs :=
  HaloKwargs (VBool true) (VFun "simple_V") (VFun "simple_alpha") (VNum 4)
    (VStr "alpha2-omega") (VBool true) (VBool false) (VNum 501).

(** [GalMagHaloField.__init__] *)
Definition halo_init (g : grid) (parameters : dict) (keep : bool)
    (kw : halo_kwargs) : res (config * state) :=
  res_bind (base_init g) (fun ga =>
    Ok (Config keep ga halo_PARAMETER_UNITS
          [("halo_n_free_decay_modes", halo_n_free_decay_modes_arg kw);
           ("halo_growing_mode_only", halo_growing_mode_only_arg kw);
           ("halo_compute_only_one_quadrant", halo_compute_only_one_quadrant_arg kw);
           ("halo_Galerkin_ngrid", halo_Galerkin_ngrid_arg kw);
           ("halo_symmetric_field", halo_symmetric_field_arg kw);
           ("halo_dynamo_type", halo_dynamo_type_arg kw);
           ("halo_rotation_function", halo_rotation_function_arg kw);
           ("halo_alpha_function", halo_alpha_function_arg kw)]
          0,
        State parameters None [])).

(** ** Auxiliary definitions for the statements *)

(** The magnitude of a scalar value in SI units (a bare number counts as
    already in SI). *)
Definition si_value (v : pyval) : Q :=
  match scalar v with
  | Some (q, None) => q
  | Some (q, Some u) => q * uscale u
  | None => 0
  end.

(** [(pval << unit).value] where the name has a declared unit, [pval]
    otherwise: the per-entry step of the conversion loop. *)
Definition convert_entry (units : unit_table) (k : string) (v : pyval) : res pyval :=
  match units_get k units with
  | Some u => lshift_value v u
  | None => Ok v
  end.

Definition keys (d : dict) : list string := map fst d.

(** The temporary entries of each variant. *)
Definition disk_temporaries : list string :=
  ["disk_modes_normalization"; "disk_turbulent_induction"; "disk_dynamo_number"].
Definition halo_temporaries : list string :=
  ["halo_turbulent_induction"; "halo_rotation_induction"].

(** The parameters each variant reads to derive its dimensionless numbers. *)
Definition disk_derived_inputs : list string :=
  ["disk_height"; "disk_shear_normalization"; "disk_alpha_effect";
   "disk_turbulent_diffusivity"].
Definition halo_derived_inputs : list string :=
  ["halo_radius"; "halo_rotation_normalization"; "halo_turbulent_diffusivity";
   "halo_alpha_effect"].

Definition res_opt {A} (r : res A) : option A :=
  match r with Ok a => Some a | Err _ => None end.

(** [h*alpha/beta] and [h**2*S/beta] as dimensionless numbers. *)
Definition ratio_value (a b beta : pyval) : res Q :=
  res_bind (py_mul a b) (fun x => res_bind (py_div x beta) to_value_dimensionless).

Definition ratio_sq_value (h S beta : pyval) : res Q :=
  res_bind (py_sq h) (fun x => res_bind (py_mul x S) (fun y =>
    res_bind (py_div y beta) to_value_dimensionless)).

(** The disk call gets past the derived numbers, and hands [P1] to the
    base class. *)
Definition disk_reaches_base (c : config) (ps P1 : dict) : Prop :=
  exists modes h S alpha beta Ra Ro,
    disk_mode_norm c ps = Ok modes /\
    dict_get "disk_height" ps = Some h /\
    dict_get "disk_shear_normalization" ps = Some S /\
    dict_get "disk_alpha_effect" ps = Some alpha /\
    dict_get "disk_turbulent_diffusivity" ps = Some beta /\
    ratio_value h alpha beta = Ok Ra /\
    ratio_sq_value h S beta = Ok Ro /\
    P1 = dict_set "disk_dynamo_number" (VNum (Ra * Ro))
           (dict_set "disk_turbulent_induction" (VNum Ra)
              (dict_set "disk_modes_normalization" (VArr modes) ps)).

(** The halo call gets past its derived numbers, and hands [P1] to the
    base class. *)
Definition halo_reaches_base (ps P1 : dict) : Prop :=
  exists r V beta alpha Ra Ro,
    dict_get "halo_radius" ps = Some r /\
    dict_get "halo_rotation_normalization" ps = Some V /\
    dict_get "halo_turbulent_diffusivity" ps = Some beta /\
    dict_get "halo_alpha_effect" ps = Some alpha /\
    ratio_value r alpha beta = Ok Ra /\
    res_bind (py_neg r) (fun x => ratio_value x V beta) = Ok Ro /\
    P1 = dict_set "halo_rotation_induction" (VNum Ro)
           (dict_set "halo_turbulent_induction" (VNum Ra) ps).

(** Instances built by the constructors. *)
Definition disk_instance (c : config) : Prop :=
  exists g ps keep kw s0, disk_init g ps keep kw = Ok (c, s0).

Definition halo_instance (c : config) : Prop :=
  exists g ps keep kw s0, halo_init g ps keep kw = Ok (c, s0).

Definition disk_option_names : list string :=
  ["disk_shear_function"; "disk_rotation_function"; "disk_height_function";
   "disk_field_decay"; "disk_newman_boundary_condition_envelope"].

Definition halo_option_names : list string :=
  ["halo_n_free_decay_modes"; "halo_growing_mode_only";
   "halo_compute_only_one_quadrant"; "halo_Galerkin_ngrid"; "halo_symmetric_field";
   "halo_dynamo_type"; "halo_rotation_function"; "halo_alpha_function"].

(** What the merged mapping holds under [k], given the mapping [P] the
    base method iterates over: the fixed option if there is one, else the
    converted entry of [P]. *)
Definition merged_entry (opts : dict) (units : unit_table) (P : dict) (k : string)
  : option pyval :=
  match dict_get k opts with
  | Some v => Some v
  | None =>
      match dict_get k P with
      | Some v => res_opt (convert_entry units k v)
      | None => None
      end
  end.

(** ** Example instances

    A one-cell grid, a GalMag stand-in returning a fixed field, and disk
    and halo parameter mappings in mixed units. *)

Definition ex_grid : grid :=
  Grid [VQty (-20) u_kpc; VQty 20 u_kpc; VQty (-20) u_kpc; VQty 20 u_kpc;
        VQty (-2) u_kpc; VQty 2 u_kpc]
       (1, 1, 1)%nat "cartesian".

Definition ex_native : native_field :=
  NativeField (Arr3 (1, 1, 1)%nat (fun _ _ _ => 1))
              (Arr3 (1, 1, 1)%nat (fun _ _ _ => 2))
              (Arr3 (1, 1, 1)%nat (fun _ _ _ => 3)).

Definition ex_get_B_field (_ : gen_args) (_ : dict) : res native_field := Ok ex_native.

(** A GalMag stand-in that raises. *)
Definition ex_failing_get_B_field (_ : gen_args) (_ : dict) : res native_field :=
  Err ValueError.

Definition ex_disk_params : dict :=
  [("disk_height", VQty (1 # 2) u_kpc);
   ("disk_radius", VQty 17 u_kpc);
   ("disk_regularization_radius", VNum 2);
   ("disk_ref_r_cylindrical", VQty 8 u_kpc);
   ("disk_shear_normalization", VQty (-1 # 100000000000000) u_per_s);
   ("disk_turbulent_diffusivity", VQty (1 # 1) (unit_div (unit_mul u_m u_m) u_s));
   ("disk_alpha_effect", VQty 1 u_km_per_s);
   ("mode_1", VNum 1);
   ("mode_3", VQty (1 # 2) u_microgauss)].

Definition ex_disk_params_foo : dict := (ex_disk_params ++ [("foo", VNum 7)])%list.

Definition ex_halo_params : dict :=
  [("halo_radius", VQty 15 u_kpc);
   ("halo_ref_radius", VQty 8 u_kpc);
   ("halo_ref_z", VQty (2 # 100) u_kpc);
   ("halo_ref_Bphi", VQty (1 # 2) u_microgauss);
   ("halo_rotation_characteristic_radius", VQty 3 u_kpc);
   ("halo_rotation_characteristic_height", VQty 1000 u_kpc);
   ("halo_rotation_normalization", VQty 200 u_km_per_s);
   ("halo_turbulent_diffusivity", VQty 1 u_cm2_per_s);
   ("halo_alpha_effect", VQty (1 # 2) u_km_per_s)].

Definition dummy_instance : config * state :=
  (Config false (GenArgs [] (0, 0, 0)%nat "") [] [] 0, State [] None []).

Definition instance_or_dummy (r : res (config * state)) : config * state :=
  match r with Ok x => x | Err _ => dummy_instance end.

Definition ex_disk (ps : dict) (keep : bool) : config * state :=
  instance_or_dummy (disk_init ex_grid ps keep default_disk_kwargs).

Definition ex_halo (ps : dict) (keep : bool) : config * state :=
  instance_or_dummy (halo_init ex_grid ps keep default_halo_kwargs).

(** Destructs, in [H], the scrutinees of the result matches and pair lets. *)
Ltac split_res H :=
  repeat match type of H with
  | context [match ?x with Ok _ => _ | Err _ => _ end] =>
      let E := fresh "E" in destruct x eqn:E
  | context [let (_, _) := ?p in _] =>
      let E := fresh "E" in destruct p eqn:E
  end.

(** ** Dictionary lemmas *)

Open Scope list_scope.

Lemma eqb_refl_str (k : string) : String.eqb k k = true.
Proof. apply String.eqb_refl. Qed.

Lemma eqb_neq_str (k k' : string) : k <> k' -> String.eqb k k' = false.
Proof. intros H. apply String.eqb_neq. exact H. Qed.

Lemma dict_get_set_eq k v d : dict_get k (dict_set k v d) = Some v.
Proof.
  induction d as [|[k' v'] d IH]; simpl.
  - now rewrite eqb_refl_str.
  - destruct (String.eqb k k') eqn:E; simpl; rewrite E; auto.
Qed.

Lemma dict_get_set_neq k k' v d :
  k <> k' -> dict_get k (dict_set k' v d) = dict_get k d.
Proof.
  intros Hne. induction d as [|[k'' v''] d IH]; simpl.
  - now rewrite eqb_neq_str.
  - destruct (String.eqb k' k'') eqn:E; simpl.
    + apply String.eqb_eq in E. subst k''. now rewrite eqb_neq_str.
    + destruct (String.eqb k k''); auto.
Qed.

Lemma keys_set k v d : keys (dict_set k v d) = keys d \/ keys (dict_set k v d) = keys d ++ [k].
Proof.
  induction d as [|[k' v'] d IH]; simpl.
  - right. reflexivity.
  - destruct (String.eqb k k'); simpl.
    + left. reflexivity.
    + destruct IH as [IH|IH]; rewrite IH; [left|right]; reflexivity.
Qed.

Lemma dict_get_none_keys k d : dict_get k d = None <-> ~ In k (keys d).
Proof.
  induction d as [|[k' v'] d IH]; simpl.
  - tauto.
  - destruct (String.eqb k k') eqn:E.
    + apply String.eqb_eq in E. subst. split; [discriminate|tauto].
    + apply String.eqb_neq in E. rewrite IH. intuition congruence.
Qed.

Lemma nodup_set k v d : NoDup (keys d) -> NoDup (keys (dict_set k v d)).
Proof.
  intros H. induction d as [|[k' v'] d IH]; simpl.
  - constructor; [simpl; tauto | constructor].
  - inversion H as [|? ? Hn Hd]; subst.
    destruct (String.eqb k k') eqn:E; simpl.
    + exact H.
    + constructor; [|now apply IH].
      apply String.eqb_neq in E.
      destruct (keys_set k v d) as [Hk|Hk]; rewrite Hk; [exact Hn|].
      rewrite in_app_iff. simpl. intuition.
Qed.

Lemma dict_get_remove_neq k k' d :
  k <> k' -> dict_get k (dict_remove k' d) = dict_get k d.
Proof.
  intros Hne. induction d as [|[k'' v''] d IH]; simpl; auto.
  destruct (String.eqb k' k'') eqn:E; simpl.
  - apply String.eqb_eq in E. subst k''. now rewrite eqb_neq_str.
  - destruct (String.eqb k k''); auto.
Qed.

Lemma keys_remove_incl k d x : In x (keys (dict_remove k d)) -> In x (keys d).
Proof.
  induction d as [|[k' v'] d IH]; simpl; auto.
  destruct (String.eqb k k'); simpl; intuition.
Qed.

Lemma nodup_remove k d : NoDup (keys d) -> NoDup (keys (dict_remove k d)).
Proof.
  intros H. induction d as [|[k' v'] d IH]; simpl; auto.
  inversion H as [|? ? Hn Hd]; subst.
  destruct (String.eqb k k'); simpl; auto.
  constructor; [|now apply IH].
  intros Hin. apply Hn. eapply keys_remove_incl. exact Hin.
Qed.

Lemma dict_get_remove_eq k d : NoDup (keys d) -> dict_get k (dict_remove k d) = None.
Proof.
  intros H. induction d as [|[k' v'] d IH]; simpl; auto.
  inversion H as [|? ? Hn Hd]; subst.
  destruct (String.eqb k k') eqn:E; simpl.
  - apply String.eqb_eq in E. subst k'. now apply dict_get_none_keys.
  - rewrite E. now apply IH.
Qed.

Lemma dict_get_update k d e :
  NoDup (keys e) ->
  dict_get k (dict_update d e) =
  match dict_get k e with Some v => Some v | None => dict_get k d end.
Proof.
  unfold dict_update. revert d.
  induction e as [|[k' v'] e IH]; intros d Hnd; simpl; auto.
  inversion Hnd as [|? ? Hn Hd]; subst.
  rewrite IH by exact Hd.
  destruct (String.eqb k k') eqn:E.
  - apply String.eqb_eq in E. subst k'.
    assert (Hnone : dict_get k e = None) by now apply dict_get_none_keys.
    rewrite Hnone. apply dict_get_set_eq.
  - apply String.eqb_neq in E.
    destruct (dict_get k e); auto. now apply dict_get_set_neq.
Qed.

(** ** The conversion loop *)


Lemma convert_parameters_get units ps acc pm :
  NoDup (keys ps) ->
  convert_parameters units ps acc = Ok pm ->
  forall k, dict_get k pm =
    match dict_get k ps with
    | Some v => res_opt (convert_entry units k v)
    | None => dict_get k acc
    end.
Proof.
  revert acc. induction ps as [|[pname pval] ps IH]; intros acc Hnd Hc k; simpl in *.
  - now inversion Hc.
  - inversion Hnd as [|? ? Hn Hd]; subst.
    destruct (match units_get pname units with
              | Some u => lshift_value pval u | None => Ok pval end) as [v1|e] eqn:Ev;
      simpl in Hc; [|discriminate].
    rewrite (IH _ Hd Hc k).
    destruct (String.eqb k pname) eqn:E.
    + apply String.eqb_eq in E. subst k.
      assert (Hnone : dict_get pname ps = None) by now apply dict_get_none_keys.
      rewrite Hnone, dict_get_set_eq. unfold convert_entry. now rewrite Ev.
    + apply String.eqb_neq in E.
      destruct (dict_get k ps); auto. now apply dict_get_set_neq.
Qed.

Lemma convert_parameters_ok_entry units ps acc pm k v :
  convert_parameters units ps acc = Ok pm ->
  dict_get k ps = Some v ->
  exists v', convert_entry units k v = Ok v'.
Proof.
  revert acc. induction ps as [|[pname pval] ps IH]; intros acc Hc Hk; simpl in *.
  - discriminate.
  - destruct (match units_get pname units with
              | Some u => lshift_value pval u | None => Ok pval end) as [v1|e] eqn:Ev;
      simpl in Hc; [|discriminate].
    destruct (String.eqb k pname) eqn:E.
    + apply String.eqb_eq in E. subst k. inversion Hk; subst.
      exists v1. unfold convert_entry. exact Ev.
    + eapply IH; eauto.
Qed.

(** ** Monad lemmas *)

Lemma mbind_inv {A B} (m : M A) (f : A -> M B) s s' r :
  mbind m f s = (s', r) ->
  (exists e, m s = (s', Err e) /\ r = Err e) \/
  (exists s1 a, m s = (s1, Ok a) /\ f a s1 = (s', r)).
Proof.
  unfold mbind. destruct (m s) as [s1 [a|e]].
  - intros H. right. eauto.
  - intros H. inversion H; subst. left. eauto.
Qed.

(** [base_compute_field] step by step. *)
Lemma base_compute_field_eq gen c seed s :
  base_compute_field gen c seed s =
  match galmag s with
  | Some f => (s, build_B_array c f)
  | None =>
      match convert_parameters (parameter_units c) (parameters s) [] with
      | Err e => (s, Err e)
      | Ok pm =>
          let m := dict_update pm (field_options c) in
          let s1 := State (parameters s) None (gen_calls s ++ [m]) in
          match gen (galmag_gen c) m with
          | Err e => (s1, Err e)
          | Ok f =>
              ((if keep_galmag_field c then State (parameters s) (Some f) (gen_calls s ++ [m])
                else s1), build_B_array c f)
          end
      end
  end.
Proof.
  destruct s as [ps g calls]. unfold base_compute_field, mbind, get_cache, mret, lift.
  simpl. destruct g as [f|]; [reflexivity|].
  unfold get_params, call_get_B_field. simpl.
  destruct (convert_parameters (parameter_units c) ps []) as [pm|e]; [|reflexivity].
  destruct (gen (galmag_gen c) (dict_update pm (field_options c))) as [f|e]; [|reflexivity].
  destruct (keep_galmag_field c); reflexivity.
Qed.

Lemma base_compute_field_params gen c seed s s' r :
  base_compute_field gen c seed s = (s', r) -> parameters s' = parameters s.
Proof.
  rewrite base_compute_field_eq. cbv zeta.
  destruct (galmag s); [intros H; now inversion H|].
  destruct (convert_parameters _ _ _) as [pm|e]; [|intros H; now inversion H].
  destruct (gen (galmag_gen c) (dict_update pm (field_options c)));
    [destruct (keep_galmag_field c)|]; intros H; now inversion H.
Qed.

Lemma dict_getitem_set_neq k k' v d :
  k <> k' -> dict_getitem k (dict_set k' v d) = dict_getitem k d.
Proof. intros H. unfold dict_getitem. now rewrite dict_get_set_neq. Qed.

Lemma dict_getitem_some k d v : dict_getitem k d = Ok v -> dict_get k d = Some v.
Proof. unfold dict_getitem. destruct (dict_get k d); congruence. Qed.

Lemma dict_getitem_none k d e : dict_getitem k d = Err e -> dict_get k d = None /\ e = KeyError k.
Proof. unfold dict_getitem. destruct (dict_get k d); intros H; inversion H; auto. Qed.




Lemma disk_compute_field_inv gen c seed s s' r :
  disk_compute_field gen c seed s = (s', r) ->
  (gen_calls s' = gen_calls s /\ galmag s' = galmag s /\ exists e, r = Err e) \/
  (exists P1 sb rb,
     disk_reaches_base c (parameters s) P1 /\
     base_compute_field gen c seed (State P1 (galmag s) (gen_calls s)) = (sb, rb) /\
     galmag s' = galmag sb /\ gen_calls s' = gen_calls sb /\
     match rb with
     | Err e => r = Err e /\ parameters s' = parameters sb
     | Ok a => r = Ok a /\
         parameters s' =
           dict_remove "disk_turbulent_induction"
             (dict_remove "disk_dynamo_number"
                (dict_remove "disk_modes_normalization" (parameters sb)))
     end).
Proof.
  destruct s as [ps g calls]. intros H.
  unfold disk_compute_field, mbind, get_params, lift, param_set, param_get,
    param_del, mret in H.
  cbn -[dict_set dict_getitem dict_del disk_mode_norm base_compute_field
        py_mul py_div py_sq to_value_dimensionless dict_remove] in H.
  split_res H; rewrite ?dict_getitem_set_neq in * by discriminate; simpl in *;
    try (left; inversion H; subst; simpl; eauto; fail).
  all: right;
    match goal with
    | E : base_compute_field _ _ _ ?st = (?sb, ?rb) |- _ =>
        exists (parameters st), sb, rb;
        pose proof (base_compute_field_params _ _ _ _ _ _ E) as Hp; simpl in Hp
    end;
    (split; [eexists _, _, _, _, _, _, _; repeat split; eauto using dict_getitem_some|]);
    (split; [eassumption|]).
  all: rewrite ?Hp in *; unfold dict_del in *;
    repeat first
      [ progress (rewrite ?dict_get_set_eq, ?dict_get_remove_neq, ?dict_get_set_neq in * by discriminate)
      | match goal with
        | E : Ok _ = Ok _ |- _ => injection E as E; subst
        | E : Ok _ = Err _ |- _ => discriminate E
        | E : Err _ = Ok _ |- _ => discriminate E
        | E : (_, _) = (_, _) |- _ => injection E as E; subst
        end ];
    simpl; auto.
Qed.


Lemma halo_compute_field_inv gen c seed s s' r :
  halo_compute_field gen c seed s = (s', r) ->
  (gen_calls s' = gen_calls s /\ galmag s' = galmag s /\ exists e, r = Err e) \/
  (exists P1 sb rb,
     halo_reaches_base (parameters s) P1 /\
     base_compute_field gen c seed (State P1 (galmag s) (gen_calls s)) = (sb, rb) /\
     galmag s' = galmag sb /\ gen_calls s' = gen_calls sb /\
     match rb with
     | Err e => r = Err e /\ parameters s' = parameters sb
     | Ok a => r = Ok a /\
         parameters s' =
           dict_remove "halo_turbulent_induction"
             (dict_remove "halo_rotation_induction" (parameters sb))
     end).
Proof.
  destruct s as [ps g calls]. intros H.
  unfold halo_compute_field, mbind, get_params, lift, param_set, param_get,
    param_del, mret in H.
  cbn -[dict_set dict_getitem dict_del base_compute_field
        py_mul py_div py_neg to_value_dimensionless dict_remove] in H.
  split_res H; rewrite ?dict_getitem_set_neq in * by discriminate; simpl in *;
    try (left; inversion H; subst; simpl; eauto; fail).
  all: right;
    match goal with
    | E : base_compute_field _ _ _ ?st = (?sb, ?rb) |- _ =>
        exists (parameters st), sb, rb;
        pose proof (base_compute_field_params _ _ _ _ _ _ E) as Hp; simpl in Hp
    end;
    (split; [eexists _, _, _, _, _, _; repeat split; eauto using dict_getitem_some|]);
    (split; [eassumption|]).
  all: rewrite ?Hp in *; unfold dict_del in *;
    repeat first
      [ progress (rewrite ?dict_get_set_eq, ?dict_get_remove_neq, ?dict_get_set_neq in * by discriminate)
      | match goal with
        | E : Ok _ = Ok _ |- _ => injection E as E; subst
        | E : Ok _ = Err _ |- _ => discriminate E
        | E : Err _ = Ok _ |- _ => discriminate E
        | E : (_, _) = (_, _) |- _ => injection E as E; subst
        end ];
    simpl; auto.
Qed.

Lemma nodup_disk_P1 c ps P1 :
  NoDup (keys ps) -> disk_reaches_base c ps P1 -> NoDup (keys P1).
Proof.
  intros Hnd (modes & h & S & alpha & beta & Ra & Ro & _ & _ & _ & _ & _ & _ & _ & ->).
  now repeat apply nodup_set.
Qed.

Lemma nodup_halo_P1 ps P1 :
  NoDup (keys ps) -> halo_reaches_base ps P1 -> NoDup (keys P1).
Proof.
  intros Hnd (r & V & beta & alpha & Ra & Ro & _ & _ & _ & _ & _ & _ & ->).
  now repeat apply nodup_set.
Qed.

Ltac absent_input Hin Habs :=
  simpl in Hin; repeat destruct Hin as [<-|Hin]; try contradiction;
  match goal with
  | E : dict_getitem ?k _ = Ok _ |- _ =>
      apply dict_getitem_some in E; congruence
  end.

Lemma disk_missing_input get_B_field c seed s k :
  In k disk_derived_inputs -> dict_get k (parameters s) = None ->
  exists s' e,
    disk_compute_field get_B_field c seed s = (s', Err e) /\
    gen_calls s' = gen_calls s /\ galmag s' = galmag s /\
    (disk_mode_norm c (parameters s) = Err e \/
     (exists k', e = KeyError k' /\ In k' disk_derived_inputs /\
        dict_get "disk_modes_normalization" (parameters s') <> None)).
Proof.
  destruct s as [ps g calls]. simpl. intros Hin Habs.
  destruct (disk_compute_field get_B_field c seed (State ps g calls)) as [s' r] eqn:H.
  exists s'.
  unfold disk_compute_field, mbind, get_params, lift, param_set, param_get,
    param_del, mret in H.
  cbn -[dict_set dict_getitem dict_del disk_mode_norm base_compute_field
        py_mul py_div py_sq to_value_dimensionless dict_remove] in H.
  split_res H; rewrite ?dict_getitem_set_neq in * by discriminate;
    try (absent_input Hin Habs).
  all: inversion H; subst; simpl; eexists; (split; [reflexivity|]);
    (split; [reflexivity|]); (split; [reflexivity|]);
    try match goal with
        | E : dict_getitem _ _ = Err _ |- _ =>
            apply dict_getitem_none in E; destruct E as [_ ->]
        end;
    first
      [ left; reflexivity
      | right; eexists; split; [reflexivity|];
        split; [simpl; tauto | rewrite dict_get_set_eq; discriminate] ].
Qed.

Lemma halo_missing_input get_B_field c seed s k :
  In k halo_derived_inputs -> dict_get k (parameters s) = None ->
  exists s' k',
    halo_compute_field get_B_field c seed s = (s', Err (KeyError k')) /\
    In k' halo_derived_inputs /\
    gen_calls s' = gen_calls s /\ galmag s' = galmag s.
Proof.
  destruct s as [ps g calls]. simpl. intros Hin Habs.
  destruct (halo_compute_field get_B_field c seed (State ps g calls)) as [s' r] eqn:H.
  exists s'.
  unfold halo_compute_field, mbind, get_params, lift, param_set, param_get,
    param_del, mret in H.
  cbn -[dict_set dict_getitem dict_del base_compute_field
        py_mul py_div py_neg to_value_dimensionless dict_remove] in H.
  split_res H; try (absent_input Hin Habs).
  all: inversion H; subst; simpl;
    match goal with
    | E : dict_getitem _ _ = Err _ |- _ =>
        apply dict_getitem_none in E; destruct E as [_ ->]
    end;
    eexists; split; [reflexivity|]; simpl; tauto.
Qed.


(** ** Which mapping reaches GalMag *)

Lemma app_single_neq {A} (l : list A) x : l ++ [x] <> l.
Proof.
  intros H. apply (f_equal (@List.length A)) in H.
  rewrite length_app in H. simpl in H. lia.
Qed.

Lemma base_gen_call gen c seed s s' r m :
  base_compute_field gen c seed s = (s', r) ->
  gen_calls s' = gen_calls s ++ [m] ->
  galmag s = None /\
  exists pm, convert_parameters (parameter_units c) (parameters s) [] = Ok pm /\
             m = dict_update pm (field_options c).
Proof.
  rewrite base_compute_field_eq. cbv zeta.
  destruct (galmag s).
  { intros H Hc. inversion H; subst. symmetry in Hc. now apply app_single_neq in Hc. }
  destruct (convert_parameters _ _ _) as [pm|e].
  2:{ intros H Hc. inversion H; subst. symmetry in Hc. now apply app_single_neq in Hc. }
  destruct (gen (galmag_gen c) (dict_update pm (field_options c)));
    [destruct (keep_galmag_field c)|]; intros H Hc; inversion H; subst; simpl in Hc;
    apply app_inj_tail in Hc; destruct Hc as [_ Hm]; subst m; eauto.
Qed.

Lemma disk_gen_call gen c seed s s' r m :
  disk_compute_field gen c seed s = (s', r) ->
  gen_calls s' = gen_calls s ++ [m] ->
  galmag s = None /\
  exists P1 pm, disk_reaches_base c (parameters s) P1 /\
    convert_parameters (parameter_units c) P1 [] = Ok pm /\
    m = dict_update pm (field_options c).
Proof.
  intros H Hc. apply disk_compute_field_inv in H.
  destruct H as [(H1 & _ & _) | (P1 & sb & rb & Hreach & Hb & _ & Hcs & _)].
  - rewrite H1 in Hc. symmetry in Hc. now apply app_single_neq in Hc.
  - rewrite Hcs in Hc.
    destruct (base_gen_call _ _ _ _ _ _ _ Hb Hc) as [Hg (pm & Hpm & ->)].
    split; [exact Hg|]. eauto.
Qed.

Lemma halo_gen_call gen c seed s s' r m :
  halo_compute_field gen c seed s = (s', r) ->
  gen_calls s' = gen_calls s ++ [m] ->
  galmag s = None /\
  exists P1 pm, halo_reaches_base (parameters s) P1 /\
    convert_parameters (parameter_units c) P1 [] = Ok pm /\
    m = dict_update pm (field_options c).
Proof.
  intros H Hc. apply halo_compute_field_inv in H.
  destruct H as [(H1 & _ & _) | (P1 & sb & rb & Hreach & Hb & _ & Hcs & _)].
  - rewrite H1 in Hc. symmetry in Hc. now apply app_single_neq in Hc.
  - rewrite Hcs in Hc.
    destruct (base_gen_call _ _ _ _ _ _ _ Hb Hc) as [Hg (pm & Hpm & ->)].
    split; [exact Hg|]. eauto.
Qed.

Lemma gen_mapping_get units opts P pm k :
  NoDup (keys P) -> NoDup (keys opts) ->
  convert_parameters units P [] = Ok pm ->
  dict_get k (dict_update pm opts) = merged_entry opts units P k.
Proof.
  intros HP Ho Hc. rewrite dict_get_update by exact Ho.
  unfold merged_entry. destruct (dict_get k opts); auto.
  rewrite (convert_parameters_get _ _ _ _ HP Hc k). reflexivity.
Qed.

Lemma units_get_app k t1 t2 :
  units_get k (t1 ++ t2) =
  match units_get k t1 with Some u => Some u | None => units_get k t2 end.
Proof.
  induction t1 as [|[k' u'] t1 IH]; simpl; auto.
  destruct (String.eqb k k'); auto.
Qed.

Lemma units_get_modes k u l :
  String.prefix "mode_" k = false ->
  units_get k (map (fun i => (mode_name (S i), u)) l) = None.
Proof.
  intros Hp. induction l as [|i l IH]; simpl; auto.
  destruct (String.eqb k (mode_name (S i))) eqn:E; auto.
  apply String.eqb_eq in E. subst k. unfold mode_name in Hp. simpl in Hp.
  destruct (format_d (S i)); discriminate.
Qed.

Lemma disk_instance_facts c :
  disk_instance c ->
  parameter_units c = disk_parameter_units (number_of_modes c) /\
  keys (field_options c) = disk_option_names.
Proof.
  intros (g & ps & keep & kw & s0 & H). unfold disk_init in H.
  destruct (match number_of_modes_arg kw with
            | Some n => Ok n | None => infer_number_of_modes ps end) as [n|e];
    simpl in H; [|discriminate].
  destruct (base_init g); simpl in H; [|discriminate].
  inversion H; subst. simpl. auto.
Qed.

Lemma halo_instance_facts c :
  halo_instance c ->
  parameter_units c = halo_PARAMETER_UNITS /\ keys (field_options c) = halo_option_names.
Proof.
  intros (g & ps & keep & kw & s0 & H). unfold halo_init in H.
  destruct (base_init g); simpl in H; [|discriminate].
  inversion H; subst. simpl. auto.
Qed.

Lemma disk_units_no_prefix c k :
  disk_instance c -> String.prefix "mode_" k = false ->
  units_get k (parameter_units c) = units_get k disk_PARAMETER_UNITS.
Proof.
  intros Hi Hp. destruct (disk_instance_facts c Hi) as [-> _].
  unfold disk_parameter_units. rewrite units_get_app.
  destruct (units_get k disk_PARAMETER_UNITS); auto. now apply units_get_modes.
Qed.

Lemma options_get_none c k names :
  keys (field_options c) = names -> ~ In k names -> dict_get k (field_options c) = None.
Proof. intros Hk Hn. apply dict_get_none_keys. now rewrite Hk. Qed.

Lemma options_nodup c names :
  keys (field_options c) = names -> NoDup names -> NoDup (keys (field_options c)).
Proof. intros ->. auto. Qed.

Lemma disk_option_names_nodup : NoDup disk_option_names.
Proof. unfold disk_option_names. repeat constructor; simpl; intuition discriminate. Qed.

Lemma halo_option_names_nodup : NoDup halo_option_names.
Proof. unfold halo_option_names. repeat constructor; simpl; intuition discriminate. Qed.


Lemma disk_P1_get_other c ps P1 k :
  disk_reaches_base c ps P1 -> ~ In k disk_temporaries -> dict_get k P1 = dict_get k ps.
Proof.
  intros (modes & h & S & alpha & beta & Ra & Ro & _ & _ & _ & _ & _ & _ & _ & ->) Hk.
  simpl in Hk.
  rewrite !dict_get_set_neq; auto; intros ->; apply Hk; auto.
Qed.

Lemma halo_P1_get_other ps P1 k :
  halo_reaches_base ps P1 -> ~ In k halo_temporaries -> dict_get k P1 = dict_get k ps.
Proof.
  intros (r & V & beta & alpha & Ra & Ro & _ & _ & _ & _ & _ & _ & ->) Hk.
  simpl in Hk.
  rewrite !dict_get_set_neq; auto; intros ->; apply Hk; auto.
Qed.

Lemma merged_entry_no_unit opts units P k :
  units_get k units = None -> dict_get k opts = None ->
  merged_entry opts units P k = dict_get k P.
Proof.
  intros Hu Ho. unfold merged_entry, convert_entry. rewrite Ho, Hu.
  destruct (dict_get k P); reflexivity.
Qed.

Lemma merged_entry_absent opts units P k :
  dict_get k opts = None -> dict_get k P = None -> merged_entry opts units P k = None.
Proof. intros Ho HP. unfold merged_entry. now rewrite Ho, HP. Qed.

Lemma units_get_in k t u : units_get k t = Some u -> In k (map fst t).
Proof.
  induction t as [|[k' u'] t IH]; simpl; [discriminate|].
  destruct (String.eqb k k') eqn:E; intros H.
  - left. symmetry. now apply String.eqb_eq.
  - right. now apply IH.
Qed.

Lemma units_get_none_notin k t : ~ In k (map fst t) -> units_get k t = None.
Proof.
  intros Hn. destruct (units_get k t) eqn:E; auto.
  exfalso. apply Hn. eapply units_get_in. exact E.
Qed.

Lemma disk_units_none c k :
  disk_instance c -> ~ In k (disk_parameter_names (number_of_modes c)) ->
  units_get k (parameter_units c) = None.
Proof.
  intros Hi Hn. destruct (disk_instance_facts c Hi) as [-> _].
  apply units_get_none_notin.
  unfold disk_parameter_units, disk_parameter_names in *.
  rewrite map_app, map_map. exact Hn.
Qed.

Lemma halo_units_none c k :
  halo_instance c -> ~ In k halo_PARAMETER_NAMES -> units_get k (parameter_units c) = None.
Proof.
  intros Hi Hn. destruct (halo_instance_facts c Hi) as [-> _].
  apply units_get_none_notin. exact Hn.
Qed.

Lemma mode_names_prefix k l :
  In k (map (fun i => mode_name (S i)) l) -> String.prefix "mode_" k = true.
Proof.
  rewrite in_map_iff. intros (i & <- & _). unfold mode_name. simpl.
  destruct (format_d (S i)); reflexivity.
Qed.

Lemma disk_declared_not_option_temp n k :
  In k (disk_parameter_names n) -> ~ In k disk_option_names /\ ~ In k disk_temporaries.
Proof.
  unfold disk_parameter_names. rewrite in_app_iff. intros [H|H].
  - simpl in H. split; intros H'; simpl in H';
      repeat destruct H as [<-|H]; try contradiction;
      repeat destruct H' as [H'|H']; try discriminate; contradiction.
  - apply mode_names_prefix in H.
    split; intros H'; simpl in H'; repeat destruct H' as [<-|H'];
      try discriminate; contradiction.
Qed.

Lemma halo_declared_not_option_temp k :
  In k halo_PARAMETER_NAMES -> ~ In k halo_option_names /\ ~ In k halo_temporaries.
Proof.
  intros H. simpl in H. split; intros H'; simpl in H';
    repeat destruct H as [<-|H]; try contradiction;
    repeat destruct H' as [H'|H']; try discriminate; contradiction.
Qed.

(** ** What a raising call leaves in the mapping *)

Ltac raise_keeps_branch :=
  repeat match goal with
         | E : dict_getitem _ _ = Ok _ |- _ => apply dict_getitem_some in E
         | E : dict_getitem _ _ = Err _ |- _ =>
             apply dict_getitem_none in E; destruct E as [E _]
         end;
  repeat split; intros;
  repeat first
    [ rewrite dict_get_set_eq
    | rewrite dict_get_set_neq by
        (first [ discriminate
               | intros ->;
                 match goal with
                 | Hk : ~ _ |- False =>
                     apply Hk; unfold disk_temporaries, halo_temporaries; simpl; tauto
                 end ]) ];
  unfold ratio_value, ratio_sq_value in *;
  repeat match goal with
         | E1 : ?x = Some _, E2 : ?x = Some _ |- _ =>
             rewrite E1 in E2; injection E2 as E2; subst
         | E1 : ?x = Ok _, E2 : ?x = Ok _ |- _ =>
             rewrite E1 in E2; injection E2 as E2; subst
         end;
  try reflexivity; try congruence.

Lemma disk_raise_keeps gen c seed s s' e :
  disk_compute_field gen c seed s = (s', Err e) ->
  (forall k, ~ In k disk_temporaries ->
     dict_get k (parameters s') = dict_get k (parameters s)) /\
  (forall modes, disk_mode_norm c (parameters s) = Ok modes ->
     dict_get "disk_modes_normalization" (parameters s') = Some (VArr modes)) /\
  (forall modes h S alpha beta Ra,
     disk_mode_norm c (parameters s) = Ok modes ->
     dict_get "disk_height" (parameters s) = Some h ->
     dict_get "disk_shear_normalization" (parameters s) = Some S ->
     dict_get "disk_alpha_effect" (parameters s) = Some alpha ->
     dict_get "disk_turbulent_diffusivity" (parameters s) = Some beta ->
     ratio_value h alpha beta = Ok Ra ->
     dict_get "disk_turbulent_induction" (parameters s') = Some (VNum Ra) /\
     forall Ro, ratio_sq_value h S beta = Ok Ro ->
       dict_get "disk_dynamo_number" (parameters s') = Some (VNum (Ra * Ro))).
Proof.
  destruct s as [ps g calls]. simpl. intros H.
  unfold disk_compute_field, mbind, get_params, lift, param_set, param_get,
    param_del, mret in H.
  cbn -[dict_set dict_getitem dict_del disk_mode_norm base_compute_field
        py_mul py_div py_sq to_value_dimensionless dict_remove] in H.
  split_res H; rewrite ?dict_getitem_set_neq in * by discriminate; simpl in *;
    try discriminate H;
    try match goal with
        | E : base_compute_field _ _ _ _ = (_, _) |- _ =>
            pose proof (base_compute_field_params _ _ _ _ _ _ E) as Hp; simpl in Hp
        end;
    inversion H; subst; clear H; simpl; rewrite ?Hp;
    unfold dict_del in *; rewrite ?Hp in *;
    repeat first
      [ progress (rewrite ?dict_get_set_eq, ?dict_get_remove_neq, ?dict_get_set_neq in * by discriminate)
      | match goal with
        | E : Ok _ = Ok _ |- _ => injection E as E; subst
        | E : Ok _ = Err _ |- _ => discriminate E
        | E : Err _ = Ok _ |- _ => discriminate E
        end ];
    raise_keeps_branch.
Qed.

Lemma halo_raise_keeps gen c seed s s' e :
  halo_compute_field gen c seed s = (s', Err e) ->
  (forall k, ~ In k halo_temporaries ->
     dict_get k (parameters s') = dict_get k (parameters s)) /\
  (forall r V beta alpha Ra,
     dict_get "halo_radius" (parameters s) = Some r ->
     dict_get "halo_rotation_normalization" (parameters s) = Some V ->
     dict_get "halo_turbulent_diffusivity" (parameters s) = Some beta ->
     dict_get "halo_alpha_effect" (parameters s) = Some alpha ->
     ratio_value r alpha beta = Ok Ra ->
     dict_get "halo_turbulent_induction" (parameters s') = Some (VNum Ra) /\
     forall Ro, res_bind (py_neg r) (fun x => ratio_value x V beta) = Ok Ro ->
       dict_get "halo_rotation_induction" (parameters s') = Some (VNum Ro)).
Proof.
  destruct s as [ps g calls]. simpl. intros H.
  unfold halo_compute_field, mbind, get_params, lift, param_set, param_get,
    param_del, mret in H.
  cbn -[dict_set dict_getitem dict_del base_compute_field
        py_mul py_div py_neg to_value_dimensionless dict_remove] in H.
  split_res H; rewrite ?dict_getitem_set_neq in * by discriminate; simpl in *;
    try discriminate H;
    try match goal with
        | E : base_compute_field _ _ _ _ = (_, _) |- _ =>
            pose proof (base_compute_field_params _ _ _ _ _ _ E) as Hp; simpl in Hp
        end;
    inversion H; subst; clear H; simpl; rewrite ?Hp;
    unfold dict_del in *; rewrite ?Hp in *;
    repeat first
      [ progress (rewrite ?dict_get_set_eq, ?dict_get_remove_neq, ?dict_get_set_neq in * by discriminate)
      | match goal with
        | E : Ok _ = Ok _ |- _ => injection E as E; subst
        | E : Ok _ = Err _ |- _ => discriminate E
        | E : Err _ = Ok _ |- _ => discriminate E
        end ];
    raise_keeps_branch.
Qed.

(** ** Calls that get past the adapter *)

Ltac finish_after_base Hc :=
  rewrite base_compute_field_eq; simpl; rewrite Hc; simpl;
  match goal with
  | |- context [match ?gen ?ga ?m with Ok _ => _ | Err _ => _ end] =>
      destruct (gen ga m); [destruct (keep_galmag_field _)|]
  end; simpl;
  repeat match goal with
         | |- context [match ?x with Ok _ => _ | Err _ => _ end] => destruct x
         end;
  eexists _, _; split; reflexivity.

Lemma disk_reach_gen gen c seed s P1 pm :
  galmag s = None -> disk_reaches_base c (parameters s) P1 ->
  convert_parameters (parameter_units c) P1 [] = Ok pm ->
  exists s' r, disk_compute_field gen c seed s = (s', r) /\
    gen_calls s' = gen_calls s ++ [dict_update pm (field_options c)].
Proof.
  destruct s as [ps g calls]. simpl.
  intros -> (modes & h & S & alpha & beta & Ra & Ro & Hm & Hh & HS & Ha & Hb &
             HRa & HRo & ->) Hc.
  unfold disk_compute_field, mbind, get_params, lift, param_set, param_get,
    param_del, mret.
  cbn -[dict_set dict_getitem dict_del disk_mode_norm base_compute_field
        py_mul py_div py_sq to_value_dimensionless dict_remove].
  rewrite Hm.
  cbn -[dict_set dict_getitem dict_del disk_mode_norm base_compute_field
        py_mul py_div py_sq to_value_dimensionless dict_remove].
  rewrite !dict_getitem_set_neq by discriminate. unfold dict_getitem.
  rewrite Hh, HS, Ha, Hb.
  unfold ratio_value, ratio_sq_value in *.
  cbn -[dict_set dict_getitem dict_del disk_mode_norm base_compute_field
        py_mul py_div py_sq to_value_dimensionless dict_remove].
  rewrite HRa.
  cbn -[dict_set dict_getitem dict_del disk_mode_norm base_compute_field
        py_mul py_div py_sq to_value_dimensionless dict_remove].
  rewrite HRo.
  cbn -[dict_set dict_getitem dict_del disk_mode_norm base_compute_field
        py_mul py_div py_sq to_value_dimensionless dict_remove].
  finish_after_base Hc.
Qed.

Lemma halo_reach_gen gen c seed s P1 pm :
  galmag s = None -> halo_reaches_base (parameters s) P1 ->
  convert_parameters (parameter_units c) P1 [] = Ok pm ->
  exists s' r, halo_compute_field gen c seed s = (s', r) /\
    gen_calls s' = gen_calls s ++ [dict_update pm (field_options c)].
Proof.
  destruct s as [ps g calls]. simpl.
  intros -> (r & V & beta & alpha & Ra & Ro & Hr & HV & Hb & Ha & HRa & HRo & ->) Hc.
  unfold halo_compute_field, mbind, get_params, lift, param_set, param_get,
    param_del, mret.
  cbn -[dict_set dict_getitem dict_del base_compute_field
        py_mul py_div py_neg to_value_dimensionless dict_remove].
  unfold dict_getitem. rewrite Hr, HV, Hb, Ha.
  unfold ratio_value in *.
  cbn -[dict_set dict_getitem dict_del base_compute_field
        py_mul py_div py_neg to_value_dimensionless dict_remove].
  rewrite HRa.
  cbn -[dict_set dict_getitem dict_del base_compute_field
        py_mul py_div py_neg to_value_dimensionless dict_remove].
  rewrite HRo.
  cbn -[dict_set dict_getitem dict_del base_compute_field
        py_mul py_div py_neg to_value_dimensionless dict_remove].
  finish_after_base Hc.
Qed.

(** ** Claims *)

(** C1 (corrected).  After a [compute_field] call on the disk or halo
    variant returns normally, none of its temporary entries
    ([disk_modes_normalization], [disk_turbulent_induction],
    [disk_dynamo_number]; [halo_turbulent_induction],
    [halo_rotation_induction]) is left in the parameter mapping.  There is
    no cleanup when the call raises (see [C1_counterexample]): every
    temporary entry injected before the failure is then in the mapping
    with the value injected, and the caller's other entries are as they
    were. *)
Theorem C1_temporaries_removed_on_return get_B_field c seed s :
  NoDup (keys (parameters s)) ->
  (forall s' a, disk_compute_field get_B_field c seed s = (s', Ok a) ->
     forall k, In k disk_temporaries -> dict_get k (parameters s') = None) /\
  (forall s' a, halo_compute_field get_B_field c seed s = (s', Ok a) ->
     forall k, In k halo_temporaries -> dict_get k (parameters s') = None) /\
  (forall s' e, disk_compute_field get_B_field c seed s = (s', Err e) ->
     (forall k, ~ In k disk_temporaries ->
        dict_get k (parameters s') = dict_get k (parameters s)) /\
     (forall modes, disk_mode_norm c (parameters s) = Ok modes ->
        dict_get "disk_modes_normalization" (parameters s') = Some (VArr modes)) /\
     (forall modes h S alpha beta Ra,
        disk_mode_norm c (parameters s) = Ok modes ->
        dict_get "disk_height" (parameters s) = Some h ->
        dict_get "disk_shear_normalization" (parameters s) = Some S ->
        dict_get "disk_alpha_effect" (parameters s) = Some alpha ->
        dict_get "disk_turbulent_diffusivity" (parameters s) = Some beta ->
        ratio_value h alpha beta = Ok Ra ->
        dict_get "disk_turbulent_induction" (parameters s') = Some (VNum Ra) /\
        forall Ro, ratio_sq_value h S beta = Ok Ro ->
          dict_get "disk_dynamo_number" (parameters s') = Some (VNum (Ra * Ro)))) /\
  (forall s' e, halo_compute_field get_B_field c seed s = (s', Err e) ->
     (forall k, ~ In k halo_temporaries ->
        dict_get k (parameters s') = dict_get k (parameters s)) /\
     (forall r V beta alpha Ra,
        dict_get "halo_radius" (parameters s) = Some r ->
        dict_get "halo_rotation_normalization" (parameters s) = Some V ->
        dict_get "halo_turbulent_diffusivity" (parameters s) = Some beta ->
        dict_get "halo_alpha_effect" (parameters s) = Some alpha ->
        ratio_value r alpha beta = Ok Ra ->
        dict_get "halo_turbulent_induction" (parameters s') = Some (VNum Ra) /\
        forall Ro, res_bind (py_neg r) (fun x => ratio_value x V beta) = Ok Ro ->
          dict_get "halo_rotation_induction" (parameters s') = Some (VNum Ro))).
Proof.
  intros Hnd. split; [|split; [|split]].
  3: intros s' e H; exact (disk_raise_keeps _ _ _ _ _ _ H).
  3: intros s' e H; exact (halo_raise_keeps _ _ _ _ _ _ H).
  - intros s' a H k Hk.
    apply disk_compute_field_inv in H.
    destruct H as [(_ & _ & e & He) | (P1 & sb & rb & Hreach & Hb & _ & _ & Hrb)];
      [discriminate|].
    destruct rb as [a'|e]; [|destruct Hrb; discriminate].
    destruct Hrb as [_ ->].
    rewrite (base_compute_field_params _ _ _ _ _ _ Hb). simpl.
    pose proof (nodup_disk_P1 _ _ _ Hnd Hreach) as HP.
    simpl in Hk. destruct Hk as [<-|[<-|[<-|[]]]].
    + rewrite !dict_get_remove_neq by discriminate. now apply dict_get_remove_eq.
    + apply dict_get_remove_eq. now repeat apply nodup_remove.
    + rewrite dict_get_remove_neq by discriminate.
      apply dict_get_remove_eq. now apply nodup_remove.
  - intros s' a H k Hk.
    apply halo_compute_field_inv in H.
    destruct H as [(_ & _ & e & He) | (P1 & sb & rb & Hreach & Hb & _ & _ & Hrb)];
      [discriminate|].
    destruct rb as [a'|e]; [|destruct Hrb; discriminate].
    destruct Hrb as [_ ->].
    rewrite (base_compute_field_params _ _ _ _ _ _ Hb). simpl.
    pose proof (nodup_halo_P1 _ _ Hnd Hreach) as HP.
    simpl in Hk. destruct Hk as [<-|[<-|[]]].
    + apply dict_get_remove_eq. now apply nodup_remove.
    + rewrite dict_get_remove_neq by discriminate. now apply dict_get_remove_eq.
Qed.

Lemma C1_witness :
  NoDup (keys (parameters (snd (ex_disk ex_disk_params false)))) /\
  (forall k, In k disk_temporaries ->
     dict_get k (parameters (fst (disk_compute_field ex_get_B_field
        (fst (ex_disk ex_disk_params false)) 0 (snd (ex_disk ex_disk_params false))))) = None) /\
  let (c, s) := ex_disk (dict_remove "disk_height" ex_disk_params) false in
  exists modes, disk_mode_norm c (parameters s) = Ok modes /\
    dict_get "disk_modes_normalization"
      (parameters (fst (disk_compute_field ex_get_B_field c 0 s))) = Some (VArr modes).
Proof.
  assert (Hnd : NoDup (keys (parameters (snd (ex_disk ex_disk_params false))))).
  { vm_compute. repeat constructor; simpl; intuition discriminate. }
  split; [exact Hnd|]. split.
  - intros k Hk.
    destruct (disk_compute_field ex_get_B_field (fst (ex_disk ex_disk_params false)) 0
                (snd (ex_disk ex_disk_params false))) as [s' r] eqn:E.
    assert (Hr : exists a, r = Ok a).
    { revert E. vm_compute. intros E. inversion E. eexists. reflexivity. }
    destruct Hr as [a ->]. simpl.
    exact (proj1 (C1_temporaries_removed_on_return _ _ _ _ Hnd) s' a E k Hk).
  - destruct (ex_disk (dict_remove "disk_height" ex_disk_params) false) as [c s] eqn:Ei.
    assert (Hnd2 : NoDup (keys (parameters s))).
    { assert (Hs : s = snd (ex_disk (dict_remove "disk_height" ex_disk_params) false))
        by now rewrite Ei.
      rewrite Hs. vm_compute. repeat constructor; simpl; intuition discriminate. }
    destruct (disk_mode_norm c (parameters s)) as [modes|e0] eqn:Em.
    2:{ exfalso. revert Em. injection Ei as <- <-. vm_compute. discriminate. }
    exists modes. split; [reflexivity|].
    destruct (disk_compute_field ex_get_B_field c 0 s) as [s' r] eqn:E.
    assert (Hr : exists e, r = Err e).
    { revert E. injection Ei as <- <-. vm_compute. intros E. inversion E.
      eexists. reflexivity. }
    destruct Hr as [e ->]. simpl.
    exact (proj1 (proj2 (proj1 (proj2 (proj2
             (C1_temporaries_removed_on_return ex_get_B_field c 0 s Hnd2))) s' e E))
             modes Em).
Defined.

(** C1, as stated, fails: a disk call whose mapping lacks [disk_height]
    raises after [disk_modes_normalization] was injected, and leaves it in
    the mapping. *)
Lemma C1_counterexample :
  let (c, s) := ex_disk (dict_remove "disk_height" ex_disk_params) false in
  let (s', r) := disk_compute_field ex_get_B_field c 0 s in
  r = Err (KeyError "disk_height") /\
  dict_get "disk_modes_normalization" (parameters s') <> None.
Proof. vm_compute. split; [reflexivity | discriminate]. Qed.

(** C10 (corrected).  Even on a cache hit, a [compute_field] call on the
    disk or halo variant first reads the inputs of its derived numbers.
    If one of them is absent, the call raises and does not invoke GalMag,
    the cache staying as it was.  The halo call raises [KeyError] on one of
    its four inputs.  The disk call first builds [disk_modes_normalization]:
    it raises [KeyError] on one of its four inputs with that entry left in
    the mapping, or, earlier, the failure of converting a [mode_i] entry to
    microgauss. *)
Theorem C10_cache_hit_still_reads_inputs get_B_field c seed s f :
  galmag s = Some f ->
  (forall k, In k disk_derived_inputs -> dict_get k (parameters s) = None ->
     exists s' e,
       disk_compute_field get_B_field c seed s = (s', Err e) /\
       gen_calls s' = gen_calls s /\ galmag s' = Some f /\
       (disk_mode_norm c (parameters s) = Err e \/
        (exists k', e = KeyError k' /\ In k' disk_derived_inputs /\
           dict_get "disk_modes_normalization" (parameters s') <> None))) /\
  (forall k, In k halo_derived_inputs -> dict_get k (parameters s) = None ->
     exists s' k',
       halo_compute_field get_B_field c seed s = (s', Err (KeyError k')) /\
       In k' halo_derived_inputs /\
       gen_calls s' = gen_calls s /\ galmag s' = Some f).
Proof.
  intros Hg. split.
  - intros k Hin Habs.
    destruct (disk_missing_input get_B_field c seed s k Hin Habs)
      as (s' & e & H1 & H2 & H3 & H4).
    exists s', e. rewrite <- Hg. auto.
  - intros k Hin Habs.
    destruct (halo_missing_input get_B_field c seed s k Hin Habs)
      as (s' & k' & H1 & H2 & H3 & H4).
    exists s', k'. rewrite <- Hg. auto.
Qed.

Lemma C10_witness :
  let s := State (dict_remove "disk_height" ex_disk_params) (Some ex_native) [] in
  galmag s = Some ex_native /\ dict_get "disk_height" (parameters s) = None /\
  exists s' e,
    disk_compute_field ex_get_B_field (fst (ex_disk ex_disk_params true)) 0 s = (s', Err e) /\
    gen_calls s' = gen_calls s /\ galmag s' = Some ex_native.
Proof.
  intros s.
  assert (Habs : dict_get "disk_height" (parameters s) = None) by (vm_compute; reflexivity).
  split; [reflexivity|]. split; [exact Habs|].
  destruct (proj1 (C10_cache_hit_still_reads_inputs ex_get_B_field
                     (fst (ex_disk ex_disk_params true)) 0 s ex_native eq_refl)
              "disk_height" (or_introl eq_refl) Habs)
    as (s' & e & H1 & H2 & H3 & _).
  exists s', e. split; [exact H1|]. split; [exact H2|exact H3].
Defined.

(** C10, as stated, fails: on a cache hit with [disk_height] absent and a
    [mode_1] given in kiloparsecs, the disk call raises the unit failure of
    the mode entry, not a missing-key failure. *)
Lemma C10_counterexample :
  let s := State (dict_set "mode_1" (VQty 1 u_kpc) (dict_remove "disk_height" ex_disk_params))
                 (Some ex_native) [] in
  snd (disk_compute_field ex_get_B_field (fst (ex_disk ex_disk_params true)) 0 s)
  = Err UnitConversionError.
Proof. vm_compute. reflexivity. Qed.

Lemma base_compute_field_populates gen c seed s s' a :
  keep_galmag_field c = true -> galmag s = None ->
  base_compute_field gen c seed s = (s', Ok a) ->
  exists m f, gen_calls s' = gen_calls s ++ [m] /\ gen (galmag_gen c) m = Ok f /\
              galmag s' = Some f /\ build_B_array c f = Ok a.
Proof.
  intros Hk Hg. rewrite base_compute_field_eq, Hg. cbv zeta.
  destruct (convert_parameters _ _ _) as [pm|e]; [|intros H; inversion H].
  destruct (gen (galmag_gen c) (dict_update pm (field_options c))) as [f|e] eqn:Ef;
    [|intros H; inversion H].
  rewrite Hk. intros H. inversion H; subst.
  exists (dict_update pm (field_options c)), f. simpl. auto.
Qed.

Lemma base_compute_field_hit gen c seed s f :
  galmag s = Some f -> base_compute_field gen c seed s = (s, build_B_array c f).
Proof. intros Hg. rewrite base_compute_field_eq, Hg. reflexivity. Qed.

(** C3 (corrected).  On an instance with the keep flag set, a first call
    that reaches GalMag and returns stores GalMag's field in the cache.
    From then on, whatever the parameter mapping holds and whatever the
    seed, no call invokes GalMag again and the cache is left as it is.
    The base class returns the array built from the cached field.  On the
    disk and halo variants, every call that returns gives that same array,
    but a call can still raise while computing the derived numbers from
    the current mapping (C10). *)
Theorem C3_cache_reuse get_B_field c :
  (keep_galmag_field c = true ->
   forall seed s s' a, galmag s = None ->
     (disk_compute_field get_B_field c seed s = (s', Ok a) \/
      halo_compute_field get_B_field c seed s = (s', Ok a) \/
      base_compute_field get_B_field c seed s = (s', Ok a)) ->
     exists m f, gen_calls s' = gen_calls s ++ [m] /\
       get_B_field (galmag_gen c) m = Ok f /\ galmag s' = Some f /\
       build_B_array c f = Ok a) /\
  (forall seed s f, galmag s = Some f ->
     base_compute_field get_B_field c seed s = (s, build_B_array c f) /\
     (forall s' r, disk_compute_field get_B_field c seed s = (s', r) ->
        gen_calls s' = gen_calls s /\ galmag s' = Some f /\
        forall a, r = Ok a -> build_B_array c f = Ok a) /\
     (forall s' r, halo_compute_field get_B_field c seed s = (s', r) ->
        gen_calls s' = gen_calls s /\ galmag s' = Some f /\
        forall a, r = Ok a -> build_B_array c f = Ok a)).
Proof.
  split.
  - intros Hk seed s s' a Hg [H|[H|H]].
    + apply disk_compute_field_inv in H.
      destruct H as [(_ & _ & e & He) | (P1 & sb & rb & _ & Hb & Hgm & Hc & Hrb)];
        [discriminate|].
      destruct rb as [a'|e]; [|destruct Hrb; discriminate].
      destruct Hrb as [Ha _]. inversion Ha; subst a'.
      destruct (base_compute_field_populates _ _ _ (State P1 (galmag s) (gen_calls s)) _ _ Hk Hg Hb)
        as (m & f & H1 & H2 & H3 & H4).
      exists m, f. rewrite Hc, Hgm. auto.
    + apply halo_compute_field_inv in H.
      destruct H as [(_ & _ & e & He) | (P1 & sb & rb & _ & Hb & Hgm & Hc & Hrb)];
        [discriminate|].
      destruct rb as [a'|e]; [|destruct Hrb; discriminate].
      destruct Hrb as [Ha _]. inversion Ha; subst a'.
      destruct (base_compute_field_populates _ _ _ (State P1 (galmag s) (gen_calls s)) _ _ Hk Hg Hb)
        as (m & f & H1 & H2 & H3 & H4).
      exists m, f. rewrite Hc, Hgm. auto.
    + exact (base_compute_field_populates _ _ _ _ _ _ Hk Hg H).
  - intros seed s f Hg. split; [now apply base_compute_field_hit|].
    split.
    + intros s' r H. apply disk_compute_field_inv in H.
      destruct H as [(H1 & H2 & e & He) | (P1 & sb & rb & _ & Hb & Hgm & Hc & Hrb)].
      * rewrite H1, H2, Hg. split; [reflexivity|]. split; [reflexivity|].
        intros a Ha. congruence.
      * rewrite Hg in Hb. rewrite (base_compute_field_hit _ _ _ _ f) in Hb by reflexivity.
        inversion Hb; subst sb rb. simpl in *. rewrite Hgm, Hc.
        split; [reflexivity|]. split; [reflexivity|].
        intros a Ha. destruct (build_B_array c f); destruct Hrb; congruence.
    + intros s' r H. apply halo_compute_field_inv in H.
      destruct H as [(H1 & H2 & e & He) | (P1 & sb & rb & _ & Hb & Hgm & Hc & Hrb)].
      * rewrite H1, H2, Hg. split; [reflexivity|]. split; [reflexivity|].
        intros a Ha. congruence.
      * rewrite Hg in Hb. rewrite (base_compute_field_hit _ _ _ _ f) in Hb by reflexivity.
        inversion Hb; subst sb rb. simpl in *. rewrite Hgm, Hc.
        split; [reflexivity|]. split; [reflexivity|].
        intros a Ha. destruct (build_B_array c f); destruct Hrb; congruence.
Qed.

Lemma C3_witness :
  let c := fst (ex_disk ex_disk_params true) in
  let s0 := snd (ex_disk ex_disk_params true) in
  let s1 := fst (disk_compute_field ex_get_B_field c 0 s0) in
  keep_galmag_field c = true /\ galmag s1 = Some ex_native /\
  (exists m, gen_calls s1 = gen_calls s0 ++ [m]) /\
  base_compute_field ex_get_B_field c 5 (State [] (galmag s1) (gen_calls s1)) =
    (State [] (galmag s1) (gen_calls s1), build_B_array c ex_native).
Proof.
  intros c s0 s1.
  assert (Hk : keep_galmag_field c = true) by (vm_compute; reflexivity).
  assert (Hg : galmag s0 = None) by (vm_compute; reflexivity).
  assert (Hrun : exists a, disk_compute_field ex_get_B_field c 0 s0 = (s1, Ok a)).
  { unfold s1. destruct (disk_compute_field ex_get_B_field c 0 s0) as [x r] eqn:E.
    simpl. revert E. vm_compute. intros E. inversion E. eauto. }
  destruct Hrun as [a Ha].
  destruct (proj1 (C3_cache_reuse ex_get_B_field c) Hk 0%Z s0 s1 a Hg (or_introl Ha))
    as (m & f & H1 & H2 & H3 & _).
  inversion H2; subst f.
  split; [exact Hk|]. split; [exact H3|]. split; [eauto|].
  exact (proj1 (proj2 (C3_cache_reuse ex_get_B_field c) 5%Z
                  (State [] (galmag s1) (gen_calls s1)) ex_native H3)).
Defined.

(** C3, as stated, fails: after a first disk call has filled the cache,
    removing [disk_height] from the mapping makes the next call raise
    instead of returning the cached field. *)
Lemma C3_counterexample :
  let c := fst (ex_disk ex_disk_params true) in
  let s0 := snd (ex_disk ex_disk_params true) in
  let s1 := fst (disk_compute_field ex_get_B_field c 0 s0) in
  let s2 := State (dict_remove "disk_height" (parameters s1)) (galmag s1) (gen_calls s1) in
  keep_galmag_field c = true /\ galmag s1 = Some ex_native /\
  snd (disk_compute_field ex_get_B_field c 0 s2) = Err (KeyError "disk_height").
Proof. vm_compute. repeat split. Qed.

(** C7 (corrected).  Whenever a call reaches GalMag, the mapping GalMag
    receives holds, under each name, the fixed option of that name if
    there is one, and otherwise the entry of the instance's parameter
    mapping as the base method sees it, converted to the declared unit and
    stripped to its number when the name has a declared unit, unchanged
    otherwise.  For the base method that mapping is the caller's; for the
    disk and halo variants it is the caller's mapping with the derived
    temporary entries injected ([disk_reaches_base], [halo_reaches_base]),
    which replace any caller entry of the same name. *)
Theorem C7_generator_mapping get_B_field c seed s :
  NoDup (keys (parameters s)) -> NoDup (keys (field_options c)) ->
  (forall s' r m, base_compute_field get_B_field c seed s = (s', r) ->
     gen_calls s' = gen_calls s ++ [m] ->
     (forall k v, dict_get k (parameters s) = Some v ->
        exists v', convert_entry (parameter_units c) k v = Ok v') /\
     forall k, dict_get k m =
       merged_entry (field_options c) (parameter_units c) (parameters s) k) /\
  (forall s' r m, disk_compute_field get_B_field c seed s = (s', r) ->
     gen_calls s' = gen_calls s ++ [m] ->
     exists P1, disk_reaches_base c (parameters s) P1 /\
     (forall k v, dict_get k P1 = Some v ->
        exists v', convert_entry (parameter_units c) k v = Ok v') /\
     forall k, dict_get k m = merged_entry (field_options c) (parameter_units c) P1 k) /\
  (forall s' r m, halo_compute_field get_B_field c seed s = (s', r) ->
     gen_calls s' = gen_calls s ++ [m] ->
     exists P1, halo_reaches_base (parameters s) P1 /\
     (forall k v, dict_get k P1 = Some v ->
        exists v', convert_entry (parameter_units c) k v = Ok v') /\
     forall k, dict_get k m = merged_entry (field_options c) (parameter_units c) P1 k).
Proof.
  intros Hnd Ho. split; [|split].
  - intros s' r m H Hc.
    destruct (base_gen_call _ _ _ _ _ _ _ H Hc) as [_ (pm & Hpm & ->)].
    split; [intros k v Hk; eapply convert_parameters_ok_entry; eauto|].
    intros k. now apply gen_mapping_get.
  - intros s' r m H Hc.
    destruct (disk_gen_call _ _ _ _ _ _ _ H Hc) as [_ (P1 & pm & Hreach & Hpm & ->)].
    exists P1. split; [exact Hreach|].
    split; [intros k v Hk; eapply convert_parameters_ok_entry; eauto|].
    intros k. apply gen_mapping_get; auto. exact (nodup_disk_P1 _ _ _ Hnd Hreach).
  - intros s' r m H Hc.
    destruct (halo_gen_call _ _ _ _ _ _ _ H Hc) as [_ (P1 & pm & Hreach & Hpm & ->)].
    exists P1. split; [exact Hreach|].
    split; [intros k v Hk; eapply convert_parameters_ok_entry; eauto|].
    intros k. apply gen_mapping_get; auto. exact (nodup_halo_P1 _ _ Hnd Hreach).
Qed.

Lemma ex_disk_params_nodup : NoDup (keys (parameters (snd (ex_disk ex_disk_params false)))).
Proof. vm_compute. repeat constructor; simpl; intuition discriminate. Qed.

Lemma C7_witness :
  let c := fst (ex_disk ex_disk_params false) in
  let s0 := snd (ex_disk ex_disk_params false) in
  exists m, gen_calls (fst (disk_compute_field ex_get_B_field c 0 s0)) = [m] /\
  exists P1, disk_reaches_base c (parameters s0) P1 /\
    forall k, dict_get k m = merged_entry (field_options c) (parameter_units c) P1 k.
Proof.
  intros c s0.
  assert (Ho : NoDup (keys (field_options c))) by
    (vm_compute; repeat constructor; simpl; intuition discriminate).
  destruct (disk_compute_field ex_get_B_field c 0 s0) as [s1 r] eqn:E.
  assert (Hm : exists m, gen_calls s1 = gen_calls s0 ++ [m]).
  { revert E. vm_compute. intros E. inversion E. eexists. reflexivity. }
  destruct Hm as [m Hm]. exists m. split; [exact Hm|].
  destruct (proj1 (proj2 (C7_generator_mapping ex_get_B_field c 0 s0 ex_disk_params_nodup Ho))
              s1 r m E Hm) as (P1 & H1 & _ & H3).
  eauto.
Defined.

(** C7, as stated, fails: for the disk variant the mapping GalMag
    receives also holds [disk_dynamo_number], which is neither a caller
    parameter nor a fixed option. *)
Lemma C7_counterexample :
  let c := fst (ex_disk ex_disk_params false) in
  let s0 := snd (ex_disk ex_disk_params false) in
  dict_get "disk_dynamo_number" (parameters s0) = None /\
  dict_get "disk_dynamo_number" (field_options c) = None /\
  exists m, gen_calls (fst (disk_compute_field ex_get_B_field c 0 s0)) = [m] /\
    dict_get "disk_dynamo_number" m <> None.
Proof.
  vm_compute. split; [reflexivity|]. split; [reflexivity|].
  eexists. split; [reflexivity | discriminate].
Qed.

(** C4 (corrected).  [compute_field] does not filter parameters by the
    declared name list: a name outside the declared list (with the
    [mode_i] entries for the disk), not a fixed option and not a temporary
    entry reaches GalMag with the caller's value, unchanged, whenever the
    call reaches GalMag.  Whether it affects the field is up to GalMag. *)
Theorem C4_undeclared_passed_through get_B_field c seed s k :
  NoDup (keys (parameters s)) ->
  (disk_instance c -> ~ In k (disk_parameter_names (number_of_modes c)) ->
   ~ In k disk_option_names -> ~ In k disk_temporaries ->
   forall s' r m, disk_compute_field get_B_field c seed s = (s', r) ->
     gen_calls s' = gen_calls s ++ [m] -> dict_get k m = dict_get k (parameters s)) /\
  (halo_instance c -> ~ In k halo_PARAMETER_NAMES ->
   ~ In k halo_option_names -> ~ In k halo_temporaries ->
   forall s' r m, halo_compute_field get_B_field c seed s = (s', r) ->
     gen_calls s' = gen_calls s ++ [m] -> dict_get k m = dict_get k (parameters s)).
Proof.
  intros Hnd. split.
  - intros Hi Hn Hopt Ht s' r m H Hc.
    destruct (disk_instance_facts c Hi) as [_ Hk].
    destruct (disk_gen_call _ _ _ _ _ _ _ H Hc) as [_ (P1 & pm & Hreach & Hpm & ->)].
    rewrite (gen_mapping_get (parameter_units c) _ P1 pm k);
      [| exact (nodup_disk_P1 _ _ _ Hnd Hreach)
       | eapply options_nodup; [exact Hk | apply disk_option_names_nodup] | exact Hpm].
    rewrite merged_entry_no_unit.
    + now apply disk_P1_get_other with (c := c).
    + now apply disk_units_none.
    + now apply options_get_none with (names := disk_option_names).
  - intros Hi Hn Hopt Ht s' r m H Hc.
    destruct (halo_instance_facts c Hi) as [_ Hk].
    destruct (halo_gen_call _ _ _ _ _ _ _ H Hc) as [_ (P1 & pm & Hreach & Hpm & ->)].
    rewrite (gen_mapping_get (parameter_units c) _ P1 pm k);
      [| exact (nodup_halo_P1 _ _ Hnd Hreach)
       | eapply options_nodup; [exact Hk | apply halo_option_names_nodup] | exact Hpm].
    rewrite merged_entry_no_unit.
    + now apply halo_P1_get_other.
    + now apply halo_units_none.
    + now apply options_get_none with (names := halo_option_names).
Qed.


Lemma ex_disk_instance ps keep c s0 :
  disk_init ex_grid ps keep default_disk_kwargs = Ok (c, s0) -> disk_instance c.
Proof. intros H. exists ex_grid, ps, keep, default_disk_kwargs, s0. exact H. Qed.

Lemma C4_witness :
  let c := fst (ex_disk ex_disk_params_foo false) in
  let s0 := snd (ex_disk ex_disk_params_foo false) in
  exists m, gen_calls (fst (disk_compute_field ex_get_B_field c 0 s0)) = [m] /\
    dict_get "foo" m = Some (VNum 7).
Proof.
  intros c s0.
  assert (Hnd : NoDup (keys (parameters s0))) by
    (vm_compute; repeat constructor; simpl; intuition discriminate).
  assert (Hi : disk_instance c).
  { apply (ex_disk_instance ex_disk_params_foo false c s0). reflexivity. }
  destruct (disk_compute_field ex_get_B_field c 0 s0) as [s1 r] eqn:E.
  assert (Hm : exists m, gen_calls s1 = gen_calls s0 ++ [m]).
  { revert E. vm_compute. intros E. inversion E. eexists. reflexivity. }
  destruct Hm as [m Hm]. exists m. split; [exact Hm|].
  rewrite (proj1 (C4_undeclared_passed_through ex_get_B_field c 0 s0 "foo" Hnd) Hi
             ltac:(vm_compute; intuition discriminate)
             ltac:(vm_compute; intuition discriminate)
             ltac:(vm_compute; intuition discriminate) s1 r m E Hm).
  reflexivity.
Defined.

(** C4, as stated, fails: a parameter [foo] outside the declared names is
    not ignored; it reaches GalMag in the mapping of the call. *)
Lemma C4_counterexample :
  let c := fst (ex_disk ex_disk_params_foo false) in
  let s0 := snd (ex_disk ex_disk_params_foo false) in
  ~ In "foo" (disk_parameter_names (number_of_modes c)) /\
  exists m, gen_calls (fst (disk_compute_field ex_get_B_field c 0 s0)) = [m] /\
    dict_get "foo" m = Some (VNum 7).
Proof.
  vm_compute. split; [intuition discriminate|].
  eexists. split; reflexivity.
Qed.

(** C2 (corrected).  Only the inputs of the derived numbers are checked
    before GalMag is reached: when one of them is absent the disk and halo
    calls raise without calling GalMag (the halo call with a missing-key
    failure).  Any other declared name (for the disk, also each [mode_i])
    that is absent does not stop the call: with an empty cache, the call
    reaches GalMag as soon as the derived inputs are there, the derived
    numbers (and, for the disk, the modes) compute and the entries present
    convert, none of which involves the absent name.  The mapping GalMag
    then receives lacks that name, and whether that fails is up to
    GalMag. *)
Theorem C2_missing_declared_entry get_B_field c seed s k :
  NoDup (keys (parameters s)) -> dict_get k (parameters s) = None ->
  (In k disk_derived_inputs ->
   exists s' e, disk_compute_field get_B_field c seed s = (s', Err e) /\
                gen_calls s' = gen_calls s) /\
  (In k halo_derived_inputs ->
   exists s' k', halo_compute_field get_B_field c seed s = (s', Err (KeyError k')) /\
                 gen_calls s' = gen_calls s) /\
  (disk_instance c -> In k (disk_parameter_names (number_of_modes c)) ->
   forall s' r m, disk_compute_field get_B_field c seed s = (s', r) ->
     gen_calls s' = gen_calls s ++ [m] -> dict_get k m = None) /\
  (halo_instance c -> In k halo_PARAMETER_NAMES ->
   forall s' r m, halo_compute_field get_B_field c seed s = (s', r) ->
     gen_calls s' = gen_calls s ++ [m] -> dict_get k m = None) /\
  (disk_instance c -> In k (disk_parameter_names (number_of_modes c)) ->
   forall P1 pm, galmag s = None -> disk_reaches_base c (parameters s) P1 ->
     convert_parameters (parameter_units c) P1 [] = Ok pm ->
     exists s' r m, disk_compute_field get_B_field c seed s = (s', r) /\
       gen_calls s' = gen_calls s ++ [m] /\ dict_get k m = None) /\
  (halo_instance c -> In k halo_PARAMETER_NAMES ->
   forall P1 pm, galmag s = None -> halo_reaches_base (parameters s) P1 ->
     convert_parameters (parameter_units c) P1 [] = Ok pm ->
     exists s' r m, halo_compute_field get_B_field c seed s = (s', r) /\
       gen_calls s' = gen_calls s ++ [m] /\ dict_get k m = None).
Proof.
  intros Hnd Habs.
  assert (D : disk_instance c -> In k (disk_parameter_names (number_of_modes c)) ->
    forall s' r m, disk_compute_field get_B_field c seed s = (s', r) ->
      gen_calls s' = gen_calls s ++ [m] -> dict_get k m = None).
  { intros Hi Hn s' r m H Hc.
    destruct (disk_instance_facts c Hi) as [_ Hk].
    destruct (disk_declared_not_option_temp _ _ Hn) as [Hopt Ht].
    destruct (disk_gen_call _ _ _ _ _ _ _ H Hc) as [_ (P1 & pm & Hreach & Hpm & ->)].
    rewrite (gen_mapping_get (parameter_units c) _ P1 pm k);
      [| exact (nodup_disk_P1 _ _ _ Hnd Hreach)
       | eapply options_nodup; [exact Hk | apply disk_option_names_nodup] | exact Hpm].
    apply merged_entry_absent.
    + now apply options_get_none with (names := disk_option_names).
    + rewrite (disk_P1_get_other c (parameters s) P1 k Hreach Ht). exact Habs. }
  assert (Hh : halo_instance c -> In k halo_PARAMETER_NAMES ->
    forall s' r m, halo_compute_field get_B_field c seed s = (s', r) ->
      gen_calls s' = gen_calls s ++ [m] -> dict_get k m = None).
  { intros Hi Hn s' r m H Hc.
    destruct (halo_instance_facts c Hi) as [_ Hk].
    destruct (halo_declared_not_option_temp _ Hn) as [Hopt Ht].
    destruct (halo_gen_call _ _ _ _ _ _ _ H Hc) as [_ (P1 & pm & Hreach & Hpm & ->)].
    rewrite (gen_mapping_get (parameter_units c) _ P1 pm k);
      [| exact (nodup_halo_P1 _ _ Hnd Hreach)
       | eapply options_nodup; [exact Hk | apply halo_option_names_nodup] | exact Hpm].
    apply merged_entry_absent.
    + now apply options_get_none with (names := halo_option_names).
    + rewrite (halo_P1_get_other (parameters s) P1 k Hreach Ht). exact Habs. }
  split; [|split; [|split; [exact D|split; [exact Hh|split]]]].
  - intros Hin.
    destruct (disk_missing_input get_B_field c seed s k Hin Habs)
      as (s' & e & H & Hc & _). eauto.
  - intros Hin.
    destruct (halo_missing_input get_B_field c seed s k Hin Habs)
      as (s' & k' & H & _ & Hc & _). eauto.
  - intros Hi Hn P1 pm Hg Hreach Hc.
    destruct (disk_reach_gen get_B_field c seed s P1 pm Hg Hreach Hc)
      as (s' & r & H & Hcalls).
    exists s', r, (dict_update pm (field_options c)).
    split; [exact H|]. split; [exact Hcalls|]. exact (D Hi Hn s' r _ H Hcalls).
  - intros Hi Hn P1 pm Hg Hreach Hc.
    destruct (halo_reach_gen get_B_field c seed s P1 pm Hg Hreach Hc)
      as (s' & r & H & Hcalls).
    exists s', r, (dict_update pm (field_options c)).
    split; [exact H|]. split; [exact Hcalls|]. exact (Hh Hi Hn s' r _ H Hcalls).
Qed.

Lemma C2_witness :
  (let c := fst (ex_disk (dict_remove "disk_radius" ex_disk_params) false) in
   let s0 := snd (ex_disk (dict_remove "disk_radius" ex_disk_params) false) in
   exists m, gen_calls (fst (disk_compute_field ex_get_B_field c 0 s0)) = [m] /\
     dict_get "disk_radius" m = None) /\
  (let kw := HaloKwargs (VBool true) (VFun "simple_V") (VFun "simple_alpha") (VNum 8)
               (VStr "alpha2-omega") (VBool false) (VBool false) (VNum 201) in
   let ps := dict_remove "halo_ref_z" ex_halo_params in
   let c := fst (instance_or_dummy (halo_init ex_grid ps false kw)) in
   let s0 := snd (instance_or_dummy (halo_init ex_grid ps false kw)) in
   exists s' r m, halo_compute_field ex_get_B_field c 0 s0 = (s', r) /\
     gen_calls s' = gen_calls s0 ++ [m] /\ dict_get "halo_ref_z" m = None).
Proof.
  split.
  - intros c s0.
    assert (Hnd : NoDup (keys (parameters s0))) by
      (vm_compute; repeat constructor; simpl; intuition discriminate).
    assert (Hi : disk_instance c).
    { apply (ex_disk_instance (dict_remove "disk_radius" ex_disk_params) false c s0).
      reflexivity. }
    destruct (disk_compute_field ex_get_B_field c 0 s0) as [s1 r] eqn:E.
    assert (Hm : exists m, gen_calls s1 = gen_calls s0 ++ [m]).
    { revert E. vm_compute. intros E. inversion E. eexists. reflexivity. }
    destruct Hm as [m Hm]. exists m. split; [exact Hm|].
    exact (proj1 (proj2 (proj2 (C2_missing_declared_entry ex_get_B_field c 0 s0
             "disk_radius" Hnd ltac:(vm_compute; reflexivity))))
             Hi ltac:(vm_compute; intuition) s1 r m E Hm).
  - intros kw ps c s0.
    assert (Hnd : NoDup (keys (parameters s0))) by
      (vm_compute; repeat constructor; simpl; intuition discriminate).
    assert (Hi : halo_instance c) by (exists ex_grid, ps, false, kw, s0; reflexivity).
    assert (HP : exists P1, halo_reaches_base (parameters s0) P1).
    { eexists. do 6 eexists. repeat split; reflexivity. }
    destruct HP as [P1 Hreach].
    destruct (convert_parameters (parameter_units c) P1 []) as [pm|e] eqn:Hc.
    2:{ exfalso. destruct Hreach as (? & ? & ? & ? & ? & ? & _ & _ & _ & _ & _ & _ & ->).
        vm_compute in Hc. discriminate. }
    exact (proj2 (proj2 (proj2 (proj2 (proj2 (C2_missing_declared_entry ex_get_B_field
             c 0 s0 "halo_ref_z" Hnd ltac:(vm_compute; reflexivity))))))
             Hi ltac:(simpl; tauto) P1 pm eq_refl Hreach Hc).
Defined.

(** C2, as stated, fails: a disk mapping without the declared
    [disk_radius] (no fixed option has that name) does not raise; the call
    reaches GalMag, which gets a mapping without [disk_radius], and
    returns. *)
Lemma C2_counterexample :
  let c := fst (ex_disk (dict_remove "disk_radius" ex_disk_params) false) in
  let s0 := snd (ex_disk (dict_remove "disk_radius" ex_disk_params) false) in
  dict_get "disk_radius" (parameters s0) = None /\
  In "disk_radius" (disk_parameter_names (number_of_modes c)) /\
  dict_get "disk_radius" (field_options c) = None /\
  exists m a, disk_compute_field ex_get_B_field c 0 s0 = (State (parameters s0) None [m], Ok a).
Proof.
  vm_compute. split; [reflexivity|]. split; [intuition|]. split; [reflexivity|].
  do 2 eexists. reflexivity.
Qed.

Lemma res_map_ok {A B} (f : A -> res B) xs ys da db :
  res_map f xs = Ok ys ->
  List.length ys = List.length xs /\
  forall i, (i < List.length xs)%nat -> f (nth i xs da) = Ok (nth i ys db).
Proof.
  revert ys. induction xs as [|x xs IH]; intros ys H; simpl in H.
  - inversion H; subst. split; [reflexivity|]. simpl. intros i Hi. lia.
  - destruct (f x) as [y|e] eqn:Ef; simpl in H; [|discriminate].
    destruct (res_map f xs) as [ys'|e] eqn:Er; simpl in H; [|discriminate].
    inversion H; subst. destruct (IH ys' eq_refl) as [Hl Hn].
    split; [simpl; now rewrite Hl|].
    intros [|i] Hi; simpl; [exact Ef|]. apply Hn. simpl in Hi. lia.
Qed.

Lemma mode_entry_ok ps i q :
  mode_entry ps i = Ok q ->
  (dict_get (mode_name (S i)) ps = None -> q = 0) /\
  (forall v, dict_get (mode_name (S i)) ps = Some v ->
     lshift_value v u_microgauss = Ok (VNum q)).
Proof.
  unfold mode_entry. destruct (dict_get (mode_name (S i)) ps) as [v|].
  - intros H. split; [discriminate|]. intros v' Hv. inversion Hv; subst v'.
    destruct (lshift_value v u_microgauss) as [[| | | | |]|e]; simpl in H;
      try discriminate. now inversion H.
  - intros H. inversion H. split; [reflexivity | discriminate].
Qed.

Lemma disk_temp_not_declared n k :
  In k disk_temporaries -> ~ In k (disk_parameter_names n).
Proof.
  intros Ht Hn. now apply (proj2 (disk_declared_not_option_temp n k Hn)).
Qed.

Lemma disk_temp_not_option k : In k disk_temporaries -> ~ In k disk_option_names.
Proof. simpl. intros H H'. repeat destruct H as [<-|H]; simpl in H'; intuition discriminate. Qed.

(** C5.  The [disk_modes_normalization] array built by the disk method
    has one entry per mode, [max 0 number_of_modes] in all; its entry [i]
    (0-based) is zero when [mode_(i+1)] is absent from the mapping and is
    the value of [mode_(i+1)] converted to microgauss when it is present.
    This array is what GalMag receives under [disk_modes_normalization]
    whenever the call reaches it. *)
Theorem C5_disk_modes_normalization get_B_field c seed s :
  (forall modes, disk_mode_norm c (parameters s) = Ok modes ->
   Z.of_nat (List.length modes) = Z.max 0 (number_of_modes c) /\
   forall i, (i < List.length modes)%nat ->
     (dict_get (mode_name (S i)) (parameters s) = None -> nth i modes 0 = 0) /\
     (forall v, dict_get (mode_name (S i)) (parameters s) = Some v ->
        lshift_value v u_microgauss = Ok (VNum (nth i modes 0)))) /\
  (disk_instance c -> NoDup (keys (parameters s)) ->
   forall s' r m, disk_compute_field get_B_field c seed s = (s', r) ->
     gen_calls s' = gen_calls s ++ [m] ->
     exists modes, disk_mode_norm c (parameters s) = Ok modes /\
       dict_get "disk_modes_normalization" m = Some (VArr modes)).
Proof.
  split.
  - intros modes H. unfold disk_mode_norm in H.
    destruct (res_map_ok _ _ _ 0%nat 0 H) as [Hl Hn].
    rewrite length_seq in Hl. split; [rewrite Hl; lia|].
    intros i Hi. rewrite Hl in Hi. specialize (Hn i ltac:(rewrite length_seq; exact Hi)).
    rewrite seq_nth in Hn by exact Hi. simpl in Hn.
    exact (mode_entry_ok _ _ _ Hn).
  - intros Hi Hnd s' r m H Hc.
    destruct (disk_instance_facts c Hi) as [_ Hk].
    destruct (disk_gen_call _ _ _ _ _ _ _ H Hc) as [_ (P1 & pm & Hreach & Hpm & ->)].
    pose proof Hreach as (modes & h & S & alpha & beta & Ra & Ro & Hm & _ & _ & _ & _ & _ & _ & HP1).
    exists modes. split; [exact Hm|].
    assert (Ht : In "disk_modes_normalization" disk_temporaries) by (simpl; auto).
    rewrite (gen_mapping_get (parameter_units c) _ P1 pm _);
      [| exact (nodup_disk_P1 _ _ _ Hnd Hreach)
       | eapply options_nodup; [exact Hk | apply disk_option_names_nodup] | exact Hpm].
    rewrite merged_entry_no_unit.
    + subst P1. rewrite !dict_get_set_neq by discriminate. apply dict_get_set_eq.
    + apply disk_units_none; [exact Hi|]. now apply disk_temp_not_declared.
    + apply options_get_none with (names := disk_option_names); [exact Hk|].
      now apply disk_temp_not_option.
Qed.

Lemma C5_witness :
  let c := fst (ex_disk ex_disk_params false) in
  let s0 := snd (ex_disk ex_disk_params false) in
  exists modes, disk_mode_norm c (parameters s0) = Ok modes /\
  Z.of_nat (List.length modes) = 3%Z /\ nth 1 modes 0 = 0 /\
  exists m, gen_calls (fst (disk_compute_field ex_get_B_field c 0 s0)) = [m] /\
    dict_get "disk_modes_normalization" m = Some (VArr modes).
Proof.
  intros c s0.
  destruct (disk_mode_norm c (parameters s0)) as [modes|e] eqn:Hmodes;
    [| vm_compute in Hmodes; discriminate].
  assert (Hnd : NoDup (keys (parameters s0))) by
    (vm_compute; repeat constructor; simpl; intuition discriminate).
  assert (Hi : disk_instance c).
  { apply (ex_disk_instance ex_disk_params false c s0). reflexivity. }
  destruct (proj1 (C5_disk_modes_normalization ex_get_B_field c 0 s0) _ Hmodes)
    as [Hl Hn].
  exists modes. split; [reflexivity|].
  split; [rewrite Hl; vm_compute; reflexivity|].
  split.
  { apply (proj1 (Hn 1%nat ltac:(apply Nat2Z.inj_lt; rewrite Hl; vm_compute; reflexivity))).
    vm_compute. reflexivity. }
  destruct (disk_compute_field ex_get_B_field c 0 s0) as [s1 r] eqn:E.
  assert (Hm : exists m, gen_calls s1 = gen_calls s0 ++ [m]).
  { revert E. vm_compute. intros E. inversion E. eexists. reflexivity. }
  destruct Hm as [m Hm]. exists m. split; [exact Hm|].
  destruct (proj2 (C5_disk_modes_normalization ex_get_B_field c 0 s0) Hi Hnd s1 r m E Hm)
    as (modes' & Hmo & Hget).
  rewrite Hmodes in Hmo. inversion Hmo; subst modes'. exact Hget.
Defined.

(** ** SI values of the arithmetic *)

Lemma si_mul a b x : py_mul a b = Ok x -> si_value x == si_value a * si_value b.
Proof.
  unfold py_mul, si_value.
  destruct (scalar a) as [[qa [ua|]]|], (scalar b) as [[qb [ub|]]|];
    intros H; inversion H; subst; simpl; ring.
Qed.

Lemma si_div a b x : py_div a b = Ok x -> si_value x == si_value a / si_value b.
Proof.
  unfold py_div, si_value.
  destruct (scalar a) as [[qa [ua|]]|], (scalar b) as [[qb [ub|]]|];
    intros H; inversion H; subst; simpl; unfold Qdiv;
    rewrite ?Qinv_mult_distr; ring.
Qed.

Lemma si_neg a x : py_neg a = Ok x -> si_value x == - si_value a.
Proof.
  unfold py_neg, si_value.
  destruct (scalar a) as [[qa [ua|]]|]; intros H; inversion H; subst; simpl; ring.
Qed.

Lemma to_value_si v q :
  to_value_dimensionless v = Ok q ->
  q == si_value v /\ exists q' u, v = VQty q' u /\ udims u = dims_zero.
Proof.
  destruct v as [| |q' u| | |]; simpl; try discriminate.
  destruct (dims_eqb (udims u) dims_zero) eqn:E; intros H; inversion H; subst.
  split; [reflexivity|]. exists q', u. split; [reflexivity|].
  destruct u as [su [l t m i]]; unfold dims_eqb in E; simpl in *.
  repeat (apply andb_prop in E; destruct E as [E ?]).
  repeat match goal with H : Z.eqb _ _ = true |- _ => apply Z.eqb_eq in H end.
  unfold dims_zero. congruence.
Qed.

Lemma ratio_value_si a b beta R :
  ratio_value a b beta = Ok R ->
  R == si_value a * si_value b / si_value beta /\
  exists q u, res_bind (py_mul a b) (fun x => py_div x beta) = Ok (VQty q u) /\
              udims u = dims_zero.
Proof.
  unfold ratio_value.
  destruct (py_mul a b) as [x|e] eqn:Hx; simpl; [|discriminate].
  destruct (py_div x beta) as [y|e] eqn:Hy; simpl; [|discriminate].
  intros H. destruct (to_value_si _ _ H) as [Hq (q & u & -> & Hu)].
  split; [|eauto].
  rewrite Hq, (si_div _ _ _ Hy), (si_mul _ _ _ Hx). reflexivity.
Qed.

Lemma ratio_sq_value_si h S beta R :
  ratio_sq_value h S beta = Ok R ->
  R == si_value h * si_value h * si_value S / si_value beta /\
  exists q u, res_bind (py_sq h) (fun x => res_bind (py_mul x S) (fun y => py_div y beta))
                = Ok (VQty q u) /\ udims u = dims_zero.
Proof.
  unfold ratio_sq_value.
  destruct (py_sq h) as [x|e] eqn:Hx; simpl; [|discriminate].
  destruct (py_mul x S) as [y|e] eqn:Hy; simpl; [|discriminate].
  destruct (py_div y beta) as [z|e] eqn:Hz; simpl; [|discriminate].
  intros H. destruct (to_value_si _ _ H) as [Hq (q & u & -> & Hu)].
  split; [|eauto].
  rewrite Hq, (si_div _ _ _ Hz), (si_mul _ _ _ Hy), (si_mul _ _ _ Hx). reflexivity.
Qed.

Lemma halo_romega_si r V beta R :
  res_bind (py_neg r) (fun x => ratio_value x V beta) = Ok R ->
  R == - (si_value r * si_value V / si_value beta) /\
  exists q u, res_bind (py_neg r) (fun x => res_bind (py_mul x V) (fun y => py_div y beta))
                = Ok (VQty q u) /\ udims u = dims_zero.
Proof.
  destruct (py_neg r) as [x|e] eqn:Hx; simpl; [|discriminate].
  intros H. destruct (ratio_value_si _ _ _ _ H) as [HR Hd].
  split; [|exact Hd].
  rewrite HR, (si_neg _ _ Hx). unfold Qdiv. ring.
Qed.

Lemma halo_temp_not_declared k : In k halo_temporaries -> ~ In k halo_PARAMETER_NAMES.
Proof. intros Ht Hn. now apply (proj2 (halo_declared_not_option_temp k Hn)). Qed.

Lemma halo_temp_not_option k : In k halo_temporaries -> ~ In k halo_option_names.
Proof. simpl. intros H H'. repeat destruct H as [<-|H]; simpl in H'; intuition discriminate. Qed.

(** What GalMag receives under a temporary name is the temporary entry. *)
Lemma disk_gen_temp c P1 pm k :
  disk_instance c -> NoDup (keys P1) -> In k disk_temporaries ->
  convert_parameters (parameter_units c) P1 [] = Ok pm ->
  dict_get k (dict_update pm (field_options c)) = dict_get k P1.
Proof.
  intros Hi Hnd Ht Hpm. destruct (disk_instance_facts c Hi) as [_ Hk].
  rewrite (gen_mapping_get (parameter_units c) _ P1 pm k); auto;
    [| eapply options_nodup; [exact Hk | apply disk_option_names_nodup]].
  apply merged_entry_no_unit.
  - apply disk_units_none; [exact Hi|]. now apply disk_temp_not_declared.
  - apply options_get_none with (names := disk_option_names); [exact Hk|].
    now apply disk_temp_not_option.
Qed.

Lemma halo_gen_temp c P1 pm k :
  halo_instance c -> NoDup (keys P1) -> In k halo_temporaries ->
  convert_parameters (parameter_units c) P1 [] = Ok pm ->
  dict_get k (dict_update pm (field_options c)) = dict_get k P1.
Proof.
  intros Hi Hnd Ht Hpm. destruct (halo_instance_facts c Hi) as [_ Hk].
  rewrite (gen_mapping_get (parameter_units c) _ P1 pm k); auto;
    [| eapply options_nodup; [exact Hk | apply halo_option_names_nodup]].
  apply merged_entry_no_unit.
  - apply halo_units_none; [exact Hi|]. now apply halo_temp_not_declared.
  - apply options_get_none with (names := halo_option_names); [exact Hk|].
    now apply halo_temp_not_option.
Qed.

(** C6.  Whenever a disk or halo call reaches GalMag, the derived numbers
    GalMag receives are, over the SI values of the caller's inputs
    (whatever units they were given in): for the disk, the induction
    parameter [h * alpha / beta] and the dynamo number, that parameter
    times [h^2 * S / beta]; for the halo, [r * alpha / beta] and
    [-(r * V / beta)].  Each derived number is the value of a
    dimensionless quantity: [to_value(dimensionless_unscaled)] fails on
    anything else. *)
Theorem C6_derived_numbers get_B_field c seed s :
  NoDup (keys (parameters s)) ->
  (disk_instance c ->
   forall s' r m, disk_compute_field get_B_field c seed s = (s', r) ->
     gen_calls s' = gen_calls s ++ [m] ->
     exists h S alpha beta Ra Ro,
       dict_get "disk_height" (parameters s) = Some h /\
       dict_get "disk_shear_normalization" (parameters s) = Some S /\
       dict_get "disk_alpha_effect" (parameters s) = Some alpha /\
       dict_get "disk_turbulent_diffusivity" (parameters s) = Some beta /\
       dict_get "disk_turbulent_induction" m = Some (VNum Ra) /\
       dict_get "disk_dynamo_number" m = Some (VNum (Ra * Ro)) /\
       Ra == si_value h * si_value alpha / si_value beta /\
       Ro == si_value h * si_value h * si_value S / si_value beta) /\
  (halo_instance c ->
   forall s' r m, halo_compute_field get_B_field c seed s = (s', r) ->
     gen_calls s' = gen_calls s ++ [m] ->
     exists rad V beta alpha Ra Ro,
       dict_get "halo_radius" (parameters s) = Some rad /\
       dict_get "halo_rotation_normalization" (parameters s) = Some V /\
       dict_get "halo_turbulent_diffusivity" (parameters s) = Some beta /\
       dict_get "halo_alpha_effect" (parameters s) = Some alpha /\
       dict_get "halo_turbulent_induction" m = Some (VNum Ra) /\
       dict_get "halo_rotation_induction" m = Some (VNum Ro) /\
       Ra == si_value rad * si_value alpha / si_value beta /\
       Ro == - (si_value rad * si_value V / si_value beta)) /\
  (forall a b beta R, ratio_value a b beta = Ok R ->
     exists q u, res_bind (py_mul a b) (fun x => py_div x beta) = Ok (VQty q u) /\
                 udims u = dims_zero).
Proof.
  intros Hnd. split; [|split].
  - intros Hi s' r m H Hc.
    destruct (disk_gen_call _ _ _ _ _ _ _ H Hc) as [_ (P1 & pm & Hreach & Hpm & ->)].
    pose proof (nodup_disk_P1 _ _ _ Hnd Hreach) as HndP.
    destruct Hreach as (modes & h & S & alpha & beta & Ra & Ro &
                        _ & Hh & HS & Ha & Hb & HRa & HRo & HP1).
    exists h, S, alpha, beta, Ra, Ro. do 4 (split; [assumption|]).
    rewrite !(disk_gen_temp c P1 pm) by (simpl; auto).
    subst P1. split; [|split].
    + rewrite dict_get_set_neq by discriminate. apply dict_get_set_eq.
    + apply dict_get_set_eq.
    + split; [exact (proj1 (ratio_value_si _ _ _ _ HRa))
             | exact (proj1 (ratio_sq_value_si _ _ _ _ HRo))].
  - intros Hi s' r m H Hc.
    destruct (halo_gen_call _ _ _ _ _ _ _ H Hc) as [_ (P1 & pm & Hreach & Hpm & ->)].
    pose proof (nodup_halo_P1 _ _ Hnd Hreach) as HndP.
    destruct Hreach as (rad & V & beta & alpha & Ra & Ro & Hr & HV & Hb & Ha & HRa & HRo & HP1).
    exists rad, V, beta, alpha, Ra, Ro. do 4 (split; [assumption|]).
    rewrite !(halo_gen_temp c P1 pm) by (simpl; auto).
    subst P1. split; [|split].
    + rewrite dict_get_set_neq by discriminate. apply dict_get_set_eq.
    + apply dict_get_set_eq.
    + split; [exact (proj1 (ratio_value_si _ _ _ _ HRa))
             | exact (proj1 (halo_romega_si _ _ _ _ HRo))].
  - intros a b beta R H. exact (proj2 (ratio_value_si _ _ _ _ H)).
Qed.

Lemma C6_witness :
  let c := fst (ex_disk ex_disk_params false) in
  let s0 := snd (ex_disk ex_disk_params false) in
  exists m Ra, gen_calls (fst (disk_compute_field ex_get_B_field c 0 s0)) = [m] /\
    dict_get "disk_turbulent_induction" m = Some (VNum Ra) /\
    Ra == 15428387907456836500000.
Proof.
  intros c s0.
  assert (Hnd : NoDup (keys (parameters s0))) by
    (vm_compute; repeat constructor; simpl; intuition discriminate).
  assert (Hi : disk_instance c).
  { apply (ex_disk_instance ex_disk_params false c s0). reflexivity. }
  destruct (disk_compute_field ex_get_B_field c 0 s0) as [s1 r] eqn:E.
  assert (Hm : exists m, gen_calls s1 = gen_calls s0 ++ [m]).
  { revert E. vm_compute. intros E. inversion E. eexists. reflexivity. }
  destruct Hm as [m Hm].
  destruct (proj1 (C6_derived_numbers ex_get_B_field c 0 s0 Hnd) Hi s1 r m E Hm)
    as (h & S & alpha & beta & Ra & Ro & Hh & _ & Ha & Hb & Hti & _ & HRa & _).
  vm_compute in Hh, Ha, Hb. inversion Hh; inversion Ha; inversion Hb; subst h alpha beta.
  exists m, Ra. split; [exact Hm|]. split; [exact Hti|].
  rewrite HRa. vm_compute. reflexivity.
Defined.

(** ** The returned array *)

Lemma build_B_array_ok c f a :
  build_B_array c f = Ok a ->
  qshape a = data_shape c /\ qunit a = u_microgauss /\
  forall i j k, qget a i j k 0 = aget (Bx f) i j k /\ qget a i j k 1 = aget (By f) i j k /\
                qget a i j k 2 = aget (Bz f) i j k.
Proof.
  unfold build_B_array.
  destruct (shape_eqb (ashape (Bx f)) (gen_resolution (galmag_gen c))),
    (shape_eqb (ashape (By f)) (gen_resolution (galmag_gen c))),
    (shape_eqb (ashape (Bz f)) (gen_resolution (galmag_gen c)));
    intros H; inversion H; subst; simpl; auto.
Qed.

Lemma base_ok_source gen c seed s s' a :
  base_compute_field gen c seed s = (s', Ok a) ->
  exists f, build_B_array c f = Ok a /\
    (galmag s = Some f \/
     exists m, gen_calls s' = gen_calls s ++ [m] /\ gen (galmag_gen c) m = Ok f).
Proof.
  rewrite base_compute_field_eq. cbv zeta.
  destruct (galmag s) as [f|]; [intros H; inversion H; eauto|].
  destruct (convert_parameters _ _ _) as [pm|e]; [|intros H; inversion H].
  destruct (gen (galmag_gen c) (dict_update pm (field_options c))) as [f|e] eqn:Ef;
    [|intros H; inversion H].
  intros H. exists f. split.
  - destruct (keep_galmag_field c); inversion H; reflexivity.
  - right. exists (dict_update pm (field_options c)). split; [|exact Ef].
    destruct (keep_galmag_field c); inversion H; reflexivity.
Qed.

Lemma disk_ok_source gen c seed s s' a :
  disk_compute_field gen c seed s = (s', Ok a) ->
  exists f, build_B_array c f = Ok a /\
    (galmag s = Some f \/
     exists m, gen_calls s' = gen_calls s ++ [m] /\ gen (galmag_gen c) m = Ok f).
Proof.
  intros H. apply disk_compute_field_inv in H.
  destruct H as [(_ & _ & e & He) | (P1 & sb & rb & _ & Hb & _ & Hcs & Hrb)];
    [discriminate|].
  destruct rb as [a'|e]; destruct Hrb as [Hr _]; inversion Hr; subst a'.
  destruct (base_ok_source _ _ _ _ _ _ Hb) as (f & Hf & Hsrc).
  exists f. split; [exact Hf|]. rewrite Hcs. exact Hsrc.
Qed.

Lemma halo_ok_source gen c seed s s' a :
  halo_compute_field gen c seed s = (s', Ok a) ->
  exists f, build_B_array c f = Ok a /\
    (galmag s = Some f \/
     exists m, gen_calls s' = gen_calls s ++ [m] /\ gen (galmag_gen c) m = Ok f).
Proof.
  intros H. apply halo_compute_field_inv in H.
  destruct H as [(_ & _ & e & He) | (P1 & sb & rb & _ & Hb & _ & Hcs & Hrb)];
    [discriminate|].
  destruct rb as [a'|e]; destruct Hrb as [Hr _]; inversion Hr; subst a'.
  destruct (base_ok_source _ _ _ _ _ _ Hb) as (f & Hf & Hsrc).
  exists f. split; [exact Hf|]. rewrite Hcs. exact Hsrc.
Qed.

(** C8.  Every call that returns, on the base, disk or halo method, gives
    an array of shape [(resolution, 3)], tagged with microgauss whatever
    the units of the inputs, whose slots [0], [1], [2] hold the [x], [y],
    [z] components of the native field used: the cached field, or the one
    GalMag returned in this call.  For an instance built on a grid the
    resolution is the grid's. *)
Theorem C8_output_array get_B_field c seed s s' a :
  (base_compute_field get_B_field c seed s = (s', Ok a) \/
   disk_compute_field get_B_field c seed s = (s', Ok a) \/
   halo_compute_field get_B_field c seed s = (s', Ok a)) ->
  exists f,
    (galmag s = Some f \/
     exists m, gen_calls s' = gen_calls s ++ [m] /\ get_B_field (galmag_gen c) m = Ok f) /\
    qshape a = (gen_resolution (galmag_gen c), 3%nat) /\ qunit a = u_microgauss /\
    (forall i j k, qget a i j k 0 = aget (Bx f) i j k /\ qget a i j k 1 = aget (By f) i j k /\
                   qget a i j k 2 = aget (Bz f) i j k) /\
    (forall g ps keep kw s0, disk_init g ps keep kw = Ok (c, s0) ->
       qshape a = (resolution g, 3%nat)) /\
    (forall g ps keep kw s0, halo_init g ps keep kw = Ok (c, s0) ->
       qshape a = (resolution g, 3%nat)).
Proof.
  intros H.
  assert (Hs : exists f, build_B_array c f = Ok a /\
    (galmag s = Some f \/
     exists m, gen_calls s' = gen_calls s ++ [m] /\ get_B_field (galmag_gen c) m = Ok f)).
  { destruct H as [H|[H|H]];
      [eapply base_ok_source | eapply disk_ok_source | eapply halo_ok_source]; eauto. }
  destruct Hs as (f & Hf & Hsrc).
  destruct (build_B_array_ok _ _ _ Hf) as (Hsh & Hu & Hc).
  exists f. split; [exact Hsrc|]. split; [exact Hsh|]. split; [exact Hu|].
  split; [exact Hc|]. rewrite Hsh. unfold data_shape. split.
  - intros g ps keep kw s0 Hi. unfold disk_init in Hi.
    destruct (match number_of_modes_arg kw with
              | Some n => Ok n | None => infer_number_of_modes ps end);
      simpl in Hi; [|discriminate].
    unfold base_init in Hi.
    destruct (res_map to_value_kpc (box g)); simpl in Hi; [|discriminate].
    inversion Hi; subst. reflexivity.
  - intros g ps keep kw s0 Hi. unfold halo_init, base_init in Hi.
    destruct (res_map to_value_kpc (box g)); simpl in Hi; [|discriminate].
    inversion Hi; subst. reflexivity.
Qed.

Lemma C8_witness :
  let c := fst (ex_disk ex_disk_params false) in
  let s0 := snd (ex_disk ex_disk_params false) in
  exists a, snd (disk_compute_field ex_get_B_field c 0 s0) = Ok a /\
    qshape a = (1, 1, 1, 3)%nat /\ qunit a = u_microgauss /\ qget a 0 0 0 1 = 2.
Proof.
  intros c s0.
  destruct (disk_compute_field ex_get_B_field c 0 s0) as [s1 r] eqn:E.
  destruct r as [a|e]; [|revert E; vm_compute; intros E; inversion E].
  exists a. split; [reflexivity|].
  destruct (C8_output_array ex_get_B_field c 0 s0 s1 a (or_intror (or_introl E)))
    as (f & Hsrc & Hsh & Hu & Hc & Hd & _).
  split; [apply (Hd ex_grid ex_disk_params false default_disk_kwargs s0); reflexivity|].
  split; [exact Hu|].
  rewrite (proj1 (proj2 (Hc 0%nat 0%nat 0%nat))).
  destruct Hsrc as [Hg | (m & _ & Hm)].
  - vm_compute in Hg. discriminate.
  - inversion Hm; subst f. reflexivity.
Defined.

(** ** Inferring the number of modes *)

Lemma fold_left_max_spec xs x :
  In (fold_left Z.max xs x) (x :: xs) /\
  forall y, In y (x :: xs) -> (y <= fold_left Z.max xs x)%Z.
Proof.
  revert x. induction xs as [|x' xs IH]; intros x; simpl.
  - split; [auto|]. intros y [<-|[]]. lia.
  - destruct (IH (Z.max x x')) as [Hin Hub]. split.
    + destruct Hin as [Hm|Hin]; [|right; right; exact Hin].
      rewrite <- Hm. destruct (Z.max_spec x x') as [[_ ->]|[_ ->]];
        [right; left | left]; reflexivity.
    + intros y [<-|[<-|Hy]].
      * specialize (Hub _ (or_introl eq_refl)). lia.
      * specialize (Hub _ (or_introl eq_refl)). lia.
      * apply Hub. right. exact Hy.
Qed.

Lemma filter_none {A} (p : A -> bool) l :
  (forall x, In x l -> p x = false) -> filter p l = [].
Proof.
  induction l as [|x l IH]; simpl; intros H; auto.
  rewrite H by auto. apply IH. auto.
Qed.

(** C9.  With [number_of_modes] omitted, the disk constructor infers it as
    the largest of the integers parsed from position 5 of the keys
    containing [mode_]; with no such key it raises [ValueError] ([max] of
    an empty sequence), at construction, so no instance exists to call
    [compute_field] on.  A given [number_of_modes] is used as is. *)
Theorem C9_number_of_modes_inference g ps keep kw :
  (number_of_modes_arg kw = None ->
   (forall k, In k (keys ps) -> str_contains "mode_" k = false) ->
   disk_init g ps keep kw = Err ValueError) /\
  (forall c s0, number_of_modes_arg kw = None -> disk_init g ps keep kw = Ok (c, s0) ->
   exists ns,
     res_map (fun k => py_int (str_from 5 k)) (filter (str_contains "mode_") (keys ps)) = Ok ns /\
     In (number_of_modes c) ns /\ forall n, In n ns -> (n <= number_of_modes c)%Z) /\
  (forall c s0 n, number_of_modes_arg kw = Some n -> disk_init g ps keep kw = Ok (c, s0) ->
   number_of_modes c = n).
Proof.
  split; [|split].
  - intros Hn Hk. unfold disk_init, infer_number_of_modes. rewrite Hn.
    unfold keys in Hk. rewrite (filter_none _ _ Hk). reflexivity.
  - intros c s0 Hn H. unfold disk_init, infer_number_of_modes in H. rewrite Hn in H.
    destruct (res_map _ _) as [ns|e] eqn:Ens; simpl in H; [|discriminate].
    destruct ns as [|n0 ns']; simpl in H; [discriminate|].
    destruct (base_init g); simpl in H; [|discriminate].
    inversion H; subst. simpl. exists (n0 :: ns'). split; [reflexivity|].
    exact (fold_left_max_spec ns' n0).
  - intros c s0 n Hn H. unfold disk_init in H. rewrite Hn in H. simpl in H.
    destruct (base_init g); simpl in H; [|discriminate].
    inversion H; subst. reflexivity.
Qed.

Lemma C9_witness :
  disk_init ex_grid ex_halo_params false default_disk_kwargs = Err ValueError /\
  exists ns,
    res_map (fun k => py_int (str_from 5 k))
      (filter (str_contains "mode_") (keys ex_disk_params)) = Ok ns /\
    In (number_of_modes (fst (ex_disk ex_disk_params false))) ns /\
    forall n, In n ns -> (n <= number_of_modes (fst (ex_disk ex_disk_params false)))%Z.
Proof.
  split.
  - apply (proj1 (C9_number_of_modes_inference ex_grid ex_halo_params false
                    default_disk_kwargs) eq_refl).
    intros k Hk. vm_compute in Hk.
    repeat (destruct Hk as [<-|Hk]; [reflexivity|]). destruct Hk.
  - exact (proj1 (proj2 (C9_number_of_modes_inference ex_grid ex_disk_params false
                    default_disk_kwargs))
             (fst (ex_disk ex_disk_params false)) (snd (ex_disk ex_disk_params false))
             eq_refl eq_refl).
Defined.

(** ** Mode names and their parsing *)

Lemma char_digit_char d : (d < 10)%nat -> char_digit (digit_char d) = Some (Z.of_nat d).
Proof.
  intros Hd. unfold char_digit, digit_char.
  rewrite Ascii.nat_ascii_embedding by lia.
  replace (Nat.leb 48 (48 + d)) with true by (symmetry; apply Nat.leb_le; lia).
  replace (Nat.leb (48 + d) 57) with true by (symmetry; apply Nat.leb_le; lia).
  cbn -[Nat.sub]. f_equal. f_equal. lia.
Qed.

Lemma parse_nat_digits fuel n acc z :
  (n < fuel)%nat ->
  exists k, parse_digits (nat_digits fuel n acc) z =
            parse_digits acc (z * 10 ^ Z.of_nat k + Z.of_nat n)%Z.
Proof.
  revert n acc z. induction fuel as [|fuel IH]; intros n acc z Hn; [lia|].
  cbn [nat_digits]. destruct (Nat.ltb n 10) eqn:Hlt.
  - apply Nat.ltb_lt in Hlt. exists 1%nat. cbn [parse_digits].
    rewrite char_digit_char by (apply Nat.mod_upper_bound; lia).
    rewrite Nat.mod_small by exact Hlt. f_equal. lia.
  - apply Nat.ltb_ge in Hlt.
    destruct (IH (n / 10)%nat (String (digit_char (n mod 10)) acc) z) as [k Hk].
    { assert (n / 10 < n)%nat by (apply Nat.div_lt; lia). lia. }
    exists (S k). rewrite Hk. cbn [parse_digits].
    rewrite char_digit_char by (apply Nat.mod_upper_bound; lia).
    f_equal. rewrite Nat2Z.inj_succ, Z.pow_succ_r by lia.
    pose proof (Nat.div_mod_eq n 10).
    assert (Z.of_nat n = 10 * Z.of_nat (n / 10) + Z.of_nat (n mod 10))%Z by lia.
    lia.
Qed.

Lemma nat_digits_head fuel n acc :
  (0 < fuel)%nat -> exists d t, (d < 10)%nat /\ nat_digits fuel n acc = String (digit_char d) t.
Proof.
  revert n acc. induction fuel as [|fuel IH]; intros n acc Hf; [lia|].
  cbn [nat_digits]. destruct (Nat.ltb n 10).
  - exists (n mod 10)%nat, acc. split; [apply Nat.mod_upper_bound; lia|reflexivity].
  - destruct fuel as [|fuel'].
    + cbn [nat_digits]. exists (n mod 10)%nat, acc.
      split; [apply Nat.mod_upper_bound; lia|reflexivity].
    + apply IH. lia.
Qed.

Lemma py_int_unsigned c t :
  c <> "-"%char -> c <> "+"%char ->
  py_int (String c t) =
  match parse_digits (String c t) 0 with Some z => Ok z | None => Err ValueError end.
Proof.
  intros H1 H2. unfold py_int.
  destruct c as [[] [] [] [] [] [] [] []]; try reflexivity; congruence.
Qed.

Lemma digit_char_sign d :
  (d < 10)%nat -> digit_char d <> "-"%char /\ digit_char d <> "+"%char.
Proof.
  intros Hd. split; intros H; apply (f_equal nat_of_ascii) in H; unfold digit_char in H;
    rewrite Ascii.nat_ascii_embedding in H by lia; vm_compute in H; lia.
Qed.

Lemma py_int_format_d n : py_int (format_d n) = Ok (Z.of_nat n).
Proof.
  unfold format_d.
  destruct (nat_digits_head (S n) n "" ltac:(lia)) as (d & t & Hd & Ht).
  destruct (parse_nat_digits (S n) n "" 0 ltac:(lia)) as [k Hk].
  destruct (digit_char_sign d Hd) as [H1 H2].
  rewrite Ht in *. rewrite py_int_unsigned by assumption. rewrite Hk. reflexivity.
Qed.

Lemma substring_full s : substring 0 (String.length s) s = s.
Proof. induction s as [|c s IH]; simpl; [reflexivity | now rewrite IH]. Qed.

Lemma str_from_mode_name i : str_from 5 (mode_name i) = format_d i.
Proof.
  unfold str_from, mode_name. cbn [String.append String.length substring].
  replace (S (S (S (S (S (String.length (format_d i)))))) - 5)%nat
    with (String.length (format_d i)) by lia.
  apply substring_full.
Qed.

Lemma str_contains_mode_name i : str_contains "mode_" (mode_name i) = true.
Proof. unfold mode_name. simpl. destruct (format_d i); reflexivity. Qed.

Lemma mode_name_parse i : py_int (str_from 5 (mode_name i)) = Ok (Z.of_nat i).
Proof. rewrite str_from_mode_name. apply py_int_format_d. Qed.

Lemma mode_name_inj i j : mode_name i = mode_name j -> i = j.
Proof.
  intros H. pose proof (mode_name_parse i) as Hi. rewrite H, mode_name_parse in Hi.
  inversion Hi. lia.
Qed.

(** X1.  The name ['mode_{0:d}'.format(i)] that [parameter_names] and
    [compute_field] use for mode [i] is picked by the [__init__] filter
    (it contains [mode_]) and [int(k[5:])] reads [i] back from it; so
    distinct modes have distinct names. *)
Theorem X1_mode_name_roundtrip i :
  str_contains "mode_" (mode_name i) = true /\
  py_int (str_from 5 (mode_name i)) = Ok (Z.of_nat i) /\
  forall j, mode_name i = mode_name j -> i = j.
Proof.
  split; [apply str_contains_mode_name|]. split; [apply mode_name_parse|].
  apply mode_name_inj.
Qed.

Lemma res_map_forall2 {A B} (f : A -> res B) xs :
  (forall x, In x xs -> exists y, f x = Ok y) ->
  exists ys, res_map f xs = Ok ys /\ Forall2 (fun x y => f x = Ok y) xs ys.
Proof.
  induction xs as [|x xs IH]; intros H; simpl.
  - exists []. split; [reflexivity | constructor].
  - destruct (H x (or_introl eq_refl)) as [y Hy]. rewrite Hy. simpl.
    destruct (IH ltac:(intros x' Hx'; apply H; right; exact Hx')) as (ys & Hys & HF).
    rewrite Hys. simpl. exists (y :: ys). split; [reflexivity | constructor; auto].
Qed.

Lemma Forall2_in_left {A B} (R : A -> B -> Prop) xs ys x :
  Forall2 R xs ys -> In x xs -> exists y, In y ys /\ R x y.
Proof.
  induction 1 as [|x' y' xs ys Hr HF IH]; simpl; [intros []|].
  intros [<-|Hx]; [exists y'; auto|]. destruct (IH Hx) as (y & Hy & Hr'). eauto.
Qed.

Lemma Forall2_in_right {A B} (R : A -> B -> Prop) xs ys y :
  Forall2 R xs ys -> In y ys -> exists x, In x xs /\ R x y.
Proof.
  induction 1 as [|x' y' xs ys Hr HF IH]; simpl; [intros []|].
  intros [<-|Hy]; [exists x'; auto|]. destruct (IH Hy) as (x & Hx & Hr'). eauto.
Qed.

Lemma disk_PARAMETER_NAMES_no_mode k :
  In k disk_PARAMETER_NAMES -> str_contains "mode_" k = false.
Proof. simpl. intros H. repeat destruct H as [<-|H]; try reflexivity. destruct H. Qed.

(** X2.  With [number_of_modes] omitted, a mapping whose keys containing
    [mode_] are mode names [mode_i] with [1 <= i <= n], [mode_n] among
    them, gives [n] modes; in particular a mapping keyed by the disk's
    [parameter_names] for [n >= 1] modes gives back [n]. *)
Theorem X2_number_of_modes_from_mode_keys ps n :
  (1 <= n)%nat ->
  ((In (mode_name n) (keys ps) /\
    forall k, In k (keys ps) -> str_contains "mode_" k = true ->
      exists i, (1 <= i <= n)%nat /\ k = mode_name i) \/
   keys ps = disk_parameter_names (Z.of_nat n)) ->
  infer_number_of_modes ps = Ok (Z.of_nat n) /\
  forall g keep kw ga, number_of_modes_arg kw = None -> base_init g = Ok ga ->
    exists c s0, disk_init g ps keep kw = Ok (c, s0) /\ number_of_modes c = Z.of_nat n.
Proof.
  intros Hn Hk.
  assert (Hk' : In (mode_name n) (keys ps) /\
    forall k, In k (keys ps) -> str_contains "mode_" k = true ->
      exists i, (1 <= i <= n)%nat /\ k = mode_name i).
  { destruct Hk as [Hk|Hk]; [exact Hk|]. rewrite Hk. unfold disk_parameter_names.
    rewrite Nat2Z.id. split.
    - apply in_or_app. right. apply in_map_iff. exists (n - 1)%nat.
      split; [f_equal; lia | apply in_seq; lia].
    - intros k Hin Hc. apply in_app_or in Hin. destruct Hin as [Hin|Hin].
      + rewrite (disk_PARAMETER_NAMES_no_mode _ Hin) in Hc. discriminate.
      + apply in_map_iff in Hin. destruct Hin as (j & <- & Hj). apply in_seq in Hj.
        exists (S j). split; [lia | reflexivity]. }
  clear Hk. destruct Hk' as [Hin Hall].
  set (xs := filter (str_contains "mode_") (map fst ps)).
  destruct (res_map_forall2 (fun k => py_int (str_from 5 k)) xs) as (ys & Hys & HF).
  { intros x Hx. unfold xs in Hx. apply filter_In in Hx. destruct Hx as [Hx Hc].
    destruct (Hall x Hx Hc) as (i & _ & ->). eexists. apply mode_name_parse. }
  assert (Hub : forall y, In y ys -> (y <= Z.of_nat n)%Z).
  { intros y Hy. destruct (Forall2_in_right _ _ _ _ HF Hy) as (x & Hx & Hxy).
    unfold xs in Hx. apply filter_In in Hx. destruct Hx as [Hx Hc].
    destruct (Hall x Hx Hc) as (i & Hi & ->). rewrite mode_name_parse in Hxy.
    inversion Hxy. lia. }
  assert (Hny : In (Z.of_nat n) ys).
  { assert (Hx : In (mode_name n) xs).
    { unfold xs. apply filter_In. split; [exact Hin | apply str_contains_mode_name]. }
    destruct (Forall2_in_left _ _ _ _ HF Hx) as (y & Hy & Hxy).
    rewrite mode_name_parse in Hxy. inversion Hxy. subst. exact Hy. }
  assert (Hinf : infer_number_of_modes ps = Ok (Z.of_nat n)).
  { unfold infer_number_of_modes. fold xs. rewrite Hys. simpl.
    destruct ys as [|y0 ys']; [destruct Hny|]. simpl.
    destruct (fold_left_max_spec ys' y0) as [Hm Hmax].
    f_equal. specialize (Hmax _ Hny). specialize (Hub _ Hm). lia. }
  split; [exact Hinf|].
  intros g keep kw ga Hkw Hg. unfold disk_init. rewrite Hkw, Hinf. simpl. rewrite Hg.
  simpl. do 2 eexists. split; reflexivity.
Qed.

Lemma X2_witness :
  infer_number_of_modes ex_disk_params = Ok 3%Z /\
  infer_number_of_modes [("mode_2", VNum 1); ("mode_1", VNum 2); ("other", VNum 0)] = Ok 2%Z.
Proof.
  split.
  - apply (X2_number_of_modes_from_mode_keys ex_disk_params 3 ltac:(lia)).
    left. split; [vm_compute; tauto|].
    intros k Hk Hc. vm_compute in Hk.
    repeat (destruct Hk as [<-|Hk]; [try discriminate Hc|]); try destruct Hk.
    + exists 1%nat. split; [lia | reflexivity].
    + exists 3%nat. split; [lia | reflexivity].
  - apply (X2_number_of_modes_from_mode_keys _ 2 ltac:(lia)).
    left. split; [vm_compute; tauto|].
    intros k Hk Hc. vm_compute in Hk.
    repeat (destruct Hk as [<-|Hk]; [try discriminate Hc|]); try destruct Hk.
    + exists 2%nat. split; [lia | reflexivity].
    + exists 1%nat. split; [lia | reflexivity].
Defined.

Lemma NoDup_map_inj {A B} (f : A -> B) l :
  (forall x y, f x = f y -> x = y) -> NoDup l -> NoDup (map f l).
Proof.
  intros Hf. induction 1 as [|x l Hx Hl IH]; simpl; constructor; auto.
  intros Hin. apply in_map_iff in Hin. destruct Hin as (y & Hy & Hyl).
  apply Hf in Hy. subst. contradiction.
Qed.

Lemma units_get_some_in k t : In k (map fst t) -> exists u, units_get k t = Some u.
Proof.
  induction t as [|[k' u'] t IH]; simpl; [intros []|].
  destruct (String.eqb k k') eqn:E; [eauto|].
  intros [->|H]; [now rewrite eqb_refl_str in E | auto].
Qed.

Lemma disk_units_keys n : map fst (disk_parameter_units n) = disk_parameter_names n.
Proof.
  unfold disk_parameter_units, disk_parameter_names. rewrite map_app, map_map.
  reflexivity.
Qed.

(** X3.  The disk's [parameter_names] for [number_of_modes = n] lists
    [7 + max 0 n] distinct names, and they are exactly the names its
    [parameter_units] gives a unit to; the same holds for the halo's
    tables, with 9 names. *)
Theorem X3_parameter_tables n :
  List.length (disk_parameter_names n) = (7 + Z.to_nat n)%nat /\
  NoDup (disk_parameter_names n) /\
  (forall k, In k (disk_parameter_names n) <->
             exists u, units_get k (disk_parameter_units n) = Some u) /\
  List.length halo_PARAMETER_NAMES = 9%nat /\ NoDup halo_PARAMETER_NAMES /\
  (forall k, In k halo_PARAMETER_NAMES <->
             exists u, units_get k halo_PARAMETER_UNITS = Some u).
Proof.
  split; [|split; [|split; [|split; [|split]]]].
  - unfold disk_parameter_names. rewrite length_app, length_map, length_seq. reflexivity.
  - unfold disk_parameter_names. apply NoDup_app.
    + unfold disk_PARAMETER_NAMES. repeat constructor; simpl; intuition discriminate.
    + apply NoDup_map_inj; [|apply seq_NoDup].
      intros x y H. apply mode_name_inj in H. lia.
    + intros a Ha Hm. apply in_map_iff in Hm. destruct Hm as (i & <- & _).
      pose proof (disk_PARAMETER_NAMES_no_mode _ Ha) as Hc.
      rewrite str_contains_mode_name in Hc. discriminate.
  - intros k. rewrite <- disk_units_keys. split.
    + apply units_get_some_in.
    + intros (u & Hu). eapply units_get_in. exact Hu.
  - reflexivity.
  - unfold halo_PARAMETER_NAMES. repeat constructor; simpl; intuition discriminate.
  - intros k. replace halo_PARAMETER_NAMES with (map fst halo_PARAMETER_UNITS)
      by reflexivity. split.
    + apply units_get_some_in.
    + intros (u & Hu). eapply units_get_in. exact Hu.
Qed.

Lemma units_get_const {A} k (f : A -> string) u l :
  units_get k (map (fun j => (f j, u)) l) = if existsb (fun j => String.eqb k (f j)) l
                                           then Some u else None.
Proof.
  induction l as [|j l IH]; simpl; [reflexivity|].
  destruct (String.eqb k (f j)); simpl; auto.
Qed.

Lemma mode_units_get n i :
  units_get (mode_name i) (disk_parameter_units n) =
  if (Nat.leb 1 i && Nat.leb i (Z.to_nat n))%bool then Some u_microgauss else None.
Proof.
  unfold disk_parameter_units. rewrite units_get_app.
  rewrite units_get_none_notin.
  2:{ intros H. change (map fst disk_PARAMETER_UNITS) with disk_PARAMETER_NAMES in H.
      pose proof (disk_PARAMETER_NAMES_no_mode _ H) as Hc.
      rewrite str_contains_mode_name in Hc. discriminate. }
  rewrite (units_get_const (mode_name i) (fun j => mode_name (S j))).
  destruct (existsb _ _) eqn:E; destruct (Nat.leb 1 i && Nat.leb i (Z.to_nat n))%bool eqn:B;
    auto; exfalso.
  - apply existsb_exists in E. destruct E as (j & Hj & Hij).
    apply String.eqb_eq, mode_name_inj in Hij. apply in_seq in Hj. subst i.
    apply andb_false_iff in B. destruct B as [B|B]; apply Nat.leb_gt in B; lia.
  - apply andb_true_iff in B. destruct B as [B1 B2].
    apply Nat.leb_le in B1. apply Nat.leb_le in B2.
    assert (Hf : existsb (fun j => String.eqb (mode_name i) (mode_name (S j)))
                   (seq 0 (Z.to_nat n)) = true).
    { apply existsb_exists. exists (i - 1)%nat. split; [apply in_seq; lia|].
      apply String.eqb_eq. f_equal. lia. }
    congruence.
Qed.

(** X4.  The disk's [parameter_units] gives microgauss to [mode_i]
    exactly for [1 <= i <= number_of_modes], and no unit to any other
    [mode_i].  So a [mode_i] parameter outside that range is not converted:
    whenever a disk call reaches GalMag, GalMag receives it as the caller
    gave it. *)
Theorem X4_mode_units get_B_field c seed s i :
  units_get (mode_name i) (disk_parameter_units (number_of_modes c)) =
    (if (Nat.leb 1 i && Nat.leb i (Z.to_nat (number_of_modes c)))%bool
     then Some u_microgauss else None) /\
  (disk_instance c -> NoDup (keys (parameters s)) ->
   (i = 0 \/ Z.to_nat (number_of_modes c) < i)%nat ->
   forall s' r m, disk_compute_field get_B_field c seed s = (s', r) ->
     gen_calls s' = gen_calls s ++ [m] ->
     dict_get (mode_name i) m = dict_get (mode_name i) (parameters s)).
Proof.
  split; [apply mode_units_get|].
  intros Hi Hnd Hr s' r m H Hc.
  destruct (disk_instance_facts c Hi) as [Hu Hk].
  destruct (disk_gen_call _ _ _ _ _ _ _ H Hc) as [_ (P1 & pm & Hreach & Hpm & ->)].
  rewrite (gen_mapping_get (parameter_units c) _ P1 pm _);
    [| exact (nodup_disk_P1 _ _ _ Hnd Hreach)
     | eapply options_nodup; [exact Hk | apply disk_option_names_nodup] | exact Hpm].
  assert (Hm : str_contains "mode_" (mode_name i) = true) by apply str_contains_mode_name.
  rewrite merged_entry_no_unit.
  - apply disk_P1_get_other with (c := c); [exact Hreach|].
    simpl. intros Ht. repeat destruct Ht as [Ht|Ht]; try contradiction;
      rewrite <- Ht in Hm; discriminate.
  - rewrite Hu, mode_units_get.
    destruct Hr as [->|Hr]; [reflexivity|].
    replace (Nat.leb i (Z.to_nat (number_of_modes c))) with false
      by (symmetry; apply Nat.leb_gt; exact Hr).
    now rewrite andb_false_r.
  - apply options_get_none with (names := disk_option_names); [exact Hk|].
    simpl. intros Ht. repeat destruct Ht as [Ht|Ht]; try contradiction;
      rewrite <- Ht in Hm; discriminate.
Qed.

Lemma X4_witness :
  let kw := DiskKwargs (Some 2%Z) (disk_shear_function default_disk_kwargs)
              (disk_rotation_function default_disk_kwargs)
              (disk_height_function default_disk_kwargs) true false in
  let c := fst (instance_or_dummy (disk_init ex_grid ex_disk_params false kw)) in
  let s0 := snd (instance_or_dummy (disk_init ex_grid ex_disk_params false kw)) in
  exists m, gen_calls (fst (disk_compute_field ex_get_B_field c 0 s0)) = [m] /\
    dict_get (mode_name 3) m = Some (VQty (1 # 2) u_microgauss).
Proof.
  intros kw c s0.
  assert (Hnd : NoDup (keys (parameters s0))) by
    (vm_compute; repeat constructor; simpl; intuition discriminate).
  assert (Hi : disk_instance c).
  { exists ex_grid, ex_disk_params, false, kw, s0. reflexivity. }
  destruct (disk_compute_field ex_get_B_field c 0 s0) as [s1 r] eqn:E.
  assert (Hm : exists m, gen_calls s1 = gen_calls s0 ++ [m]).
  { revert E. vm_compute. intros E. inversion E. eexists. reflexivity. }
  destruct Hm as [m Hm]. exists m. split; [exact Hm|].
  rewrite (proj2 (X4_mode_units ex_get_B_field c 0 s0 3) Hi Hnd
             ltac:(right; vm_compute; lia) s1 r m E Hm).
  vm_compute. reflexivity.
Defined.

Lemma dims_eqb_true a b : dims_eqb a b = true -> a = b.
Proof.
  destruct a as [l t m i], b as [l' t' m' i']. unfold dims_eqb. simpl.
  intros E. repeat (apply andb_prop in E; destruct E as [E ?]).
  repeat match goal with H : Z.eqb _ _ = true |- _ => apply Z.eqb_eq in H end.
  congruence.
Qed.

(** X5.  In the base method, a parameter whose name has a declared unit
    [t] (and is not a fixed option) reaches GalMag as follows.  A quantity
    arrives as the bare number of its value in [t]: its SI magnitude over
    the SI scale of [t], so the caller's choice of units does not matter;
    and only when its dimension is that of [t].  A bare number arrives
    unchanged, as already in [t].  A quantity of another dimension makes
    an uncached call raise with the state untouched, before GalMag. *)
Theorem X5_base_unit_conversion get_B_field c seed s k t :
  NoDup (keys (parameters s)) -> NoDup (keys (field_options c)) ->
  dict_get k (field_options c) = None -> units_get k (parameter_units c) = Some t ->
  (forall q u, dict_get k (parameters s) = Some (VQty q u) ->
     dims_eqb (udims u) (udims t) = false -> galmag s = None ->
     exists e, base_compute_field get_B_field c seed s = (s, Err e)) /\
  (forall s' r m, base_compute_field get_B_field c seed s = (s', r) ->
     gen_calls s' = gen_calls s ++ [m] ->
     (forall q u, dict_get k (parameters s) = Some (VQty q u) ->
        udims u = udims t /\ dict_get k m = Some (VNum (si_value (VQty q u) / uscale t))) /\
     (forall q, dict_get k (parameters s) = Some (VNum q) -> dict_get k m = Some (VNum q))).
Proof.
  intros Hnd Ho Hopt Ht. split.
  - intros q u Hk Hd Hg. rewrite base_compute_field_eq, Hg. cbv zeta.
    destruct (convert_parameters (parameter_units c) (parameters s) []) as [pm|e] eqn:Hc;
      [|eauto].
    exfalso. destruct (convert_parameters_ok_entry _ _ _ _ _ _ Hc Hk) as [v' Hv].
    unfold convert_entry in Hv. rewrite Ht in Hv. simpl in Hv. rewrite Hd in Hv.
    discriminate.
  - intros s' r m H Hc.
    destruct (base_gen_call _ _ _ _ _ _ _ H Hc) as [_ (pm & Hpm & ->)].
    rewrite (gen_mapping_get (parameter_units c) _ (parameters s) pm k Hnd Ho Hpm).
    unfold merged_entry. rewrite Hopt. split.
    + intros q u Hk. rewrite Hk.
      destruct (convert_parameters_ok_entry _ _ _ _ _ _ Hpm Hk) as [v' Hv].
      unfold convert_entry in *. rewrite Ht in *. simpl in *.
      destruct (dims_eqb (udims u) (udims t)) eqn:Hd; [|discriminate].
      split; [now apply dims_eqb_true|]. reflexivity.
    + intros q Hk. rewrite Hk. unfold convert_entry. rewrite Ht. reflexivity.
Qed.

Lemma X5_witness :
  (let c := fst (ex_disk ex_disk_params false) in
   let s0 := snd (ex_disk ex_disk_params false) in
   exists m, gen_calls (fst (base_compute_field ex_get_B_field c 0 s0)) = [m] /\
     dict_get "disk_height" m = Some (VNum (si_value (VQty (1 # 2) u_kpc) / uscale u_kpc)) /\
     dict_get "disk_regularization_radius" m = Some (VNum 2)) /\
  (let c := fst (ex_disk ex_disk_params false) in
   let s0 := snd (ex_disk (dict_set "disk_height" (VQty 1 u_km_per_s) ex_disk_params) false) in
   exists e, base_compute_field ex_get_B_field c 0 s0 = (s0, Err e)).
Proof.
  split.
  - intros c s0.
    assert (Hnd : NoDup (keys (parameters s0))) by
      (vm_compute; repeat constructor; simpl; intuition discriminate).
    assert (Ho : NoDup (keys (field_options c))) by
      (vm_compute; repeat constructor; simpl; intuition discriminate).
    destruct (base_compute_field ex_get_B_field c 0 s0) as [s1 r] eqn:E.
    assert (Hm : exists m, gen_calls s1 = gen_calls s0 ++ [m]).
    { revert E. vm_compute. intros E. inversion E. eexists. reflexivity. }
    destruct Hm as [m Hm]. exists m. split; [exact Hm|]. split.
    + exact (proj2 (proj1 (proj2 (X5_base_unit_conversion ex_get_B_field c 0 s0
               "disk_height" u_kpc Hnd Ho eq_refl eq_refl) s1 r m E Hm) (1 # 2) u_kpc eq_refl)).
    + exact (proj2 (proj2 (X5_base_unit_conversion ex_get_B_field c 0 s0
               "disk_regularization_radius" u_kpc Hnd Ho eq_refl eq_refl) s1 r m E Hm) 2 eq_refl).
  - intros c s0.
    assert (Hnd : NoDup (keys (parameters s0))) by
      (vm_compute; repeat constructor; simpl; intuition discriminate).
    assert (Ho : NoDup (keys (field_options c))) by
      (vm_compute; repeat constructor; simpl; intuition discriminate).
    exact (proj1 (X5_base_unit_conversion ex_get_B_field c 0 s0 "disk_height" u_kpc
                    Hnd Ho eq_refl eq_refl) 1 u_km_per_s eq_refl eq_refl eq_refl).
Defined.

Lemma base_no_keep_cache gen c seed s s' r :
  keep_galmag_field c = false ->
  base_compute_field gen c seed s = (s', r) -> galmag s' = galmag s.
Proof.
  intros Hk. rewrite base_compute_field_eq. cbv zeta.
  destruct (galmag s) eqn:Hg; [intros H; inversion H; subst; exact Hg|].
  destruct (convert_parameters _ _ _) as [pm|e]; [|intros H; inversion H; subst; exact Hg].
  destruct (gen (galmag_gen c) (dict_update pm (field_options c)));
    [rewrite Hk|]; intros H; inversion H; subst; reflexivity.
Qed.

(** X6.  Without the keep flag, no call of the base, disk or halo method
    changes the cache, and every base call on an empty cache whose
    parameters convert calls GalMag, once, with the merged mapping. *)
Theorem X6_without_keep get_B_field c :
  keep_galmag_field c = false ->
  (forall seed s s' r,
     (base_compute_field get_B_field c seed s = (s', r) \/
      disk_compute_field get_B_field c seed s = (s', r) \/
      halo_compute_field get_B_field c seed s = (s', r)) ->
     galmag s' = galmag s) /\
  (forall seed s s' r pm, galmag s = None ->
     convert_parameters (parameter_units c) (parameters s) [] = Ok pm ->
     base_compute_field get_B_field c seed s = (s', r) ->
     gen_calls s' = gen_calls s ++ [dict_update pm (field_options c)] /\ galmag s' = None).
Proof.
  intros Hk. split.
  - intros seed s s' r [H|[H|H]].
    + exact (base_no_keep_cache _ _ _ _ _ _ Hk H).
    + apply disk_compute_field_inv in H.
      destruct H as [(_ & Hg & _) | (P1 & sb & rb & _ & Hb & Hg & _)]; [exact Hg|].
      rewrite Hg. exact (base_no_keep_cache _ _ _ _ _ _ Hk Hb).
    + apply halo_compute_field_inv in H.
      destruct H as [(_ & Hg & _) | (P1 & sb & rb & _ & Hb & Hg & _)]; [exact Hg|].
      rewrite Hg. exact (base_no_keep_cache _ _ _ _ _ _ Hk Hb).
  - intros seed s s' r pm Hg Hc. rewrite base_compute_field_eq, Hg, Hc. cbv zeta.
    destruct (get_B_field (galmag_gen c) (dict_update pm (field_options c)));
      [rewrite Hk|]; intros H; inversion H; subst; simpl; auto.
Qed.

Lemma X6_witness :
  let c := fst (ex_disk ex_disk_params false) in
  let s0 := snd (ex_disk ex_disk_params false) in
  let s1 := fst (disk_compute_field ex_get_B_field c 0 s0) in
  galmag s1 = None /\
  exists pm, gen_calls (fst (base_compute_field ex_get_B_field c 0 s0)) =
             [dict_update pm (field_options c)].
Proof.
  intros c s0 s1. split.
  - destruct (disk_compute_field ex_get_B_field c 0 s0) as [s1' r] eqn:E.
    exact (proj1 (X6_without_keep ex_get_B_field c eq_refl) 0%Z s0 s1' r
             (or_intror (or_introl E))).
  - destruct (convert_parameters (parameter_units c) (parameters s0) []) as [pm|e] eqn:Hc;
      [|vm_compute in Hc; discriminate].
    exists pm.
    destruct (base_compute_field ex_get_B_field c 0 s0) as [s1' r] eqn:E.
    exact (proj1 (proj2 (X6_without_keep ex_get_B_field c eq_refl) 0%Z s0 s1' r pm
                    eq_refl Hc E)).
Defined.

Lemma base_gen_error gen c seed s sb rb m e :
  base_compute_field gen c seed s = (sb, rb) -> gen_calls sb = gen_calls s ++ [m] ->
  gen (galmag_gen c) m = Err e ->
  rb = Err e /\ sb = State (parameters s) None (gen_calls s ++ [m]).
Proof.
  intros H Hc He.
  destruct (base_gen_call _ _ _ _ _ _ _ H Hc) as [Hg (pm & Hpm & ->)].
  revert H. rewrite base_compute_field_eq, Hg, Hpm. cbv zeta. rewrite He.
  intros H. inversion H. auto.
Qed.

(** X7.  When GalMag raises, [compute_field] raises the same error and
    caches nothing, even with the keep flag.  The base method leaves the
    parameter mapping as it was; the disk and halo methods leave all their
    temporary entries in it. *)
Theorem X7_generator_error get_B_field c seed s e :
  (forall s' r m, base_compute_field get_B_field c seed s = (s', r) ->
     gen_calls s' = gen_calls s ++ [m] -> get_B_field (galmag_gen c) m = Err e ->
     r = Err e /\ galmag s' = None /\ parameters s' = parameters s) /\
  (forall s' r m, disk_compute_field get_B_field c seed s = (s', r) ->
     gen_calls s' = gen_calls s ++ [m] -> get_B_field (galmag_gen c) m = Err e ->
     r = Err e /\ galmag s' = None /\
     forall k, In k disk_temporaries -> dict_get k (parameters s') <> None) /\
  (forall s' r m, halo_compute_field get_B_field c seed s = (s', r) ->
     gen_calls s' = gen_calls s ++ [m] -> get_B_field (galmag_gen c) m = Err e ->
     r = Err e /\ galmag s' = None /\
     forall k, In k halo_temporaries -> dict_get k (parameters s') <> None).
Proof.
  split; [|split].
  - intros s' r m H Hc He.
    destruct (base_gen_error _ _ _ _ _ _ _ _ H Hc He) as [-> ->]. auto.
  - intros s' r m H Hc He. apply disk_compute_field_inv in H.
    destruct H as [(H1 & _ & _) | (P1 & sb & rb & Hreach & Hb & Hg & Hcs & Hrb)].
    { rewrite H1 in Hc. symmetry in Hc. now apply app_single_neq in Hc. }
    rewrite Hcs in Hc.
    destruct (base_gen_error _ _ _ _ _ _ _ _ Hb Hc He) as [-> ->]. simpl in *.
    destruct Hrb as [Hr Hp]. split; [exact Hr|]. split; [exact Hg|].
    rewrite Hp.
    destruct Hreach as (modes & h & S & alpha & beta & Ra & Ro & _ & _ & _ & _ & _ & _ & _ & ->).
    intros k Hk. simpl in Hk. repeat destruct Hk as [<-|Hk]; try contradiction;
      rewrite ?dict_get_set_neq by discriminate; rewrite dict_get_set_eq; discriminate.
  - intros s' r m H Hc He. apply halo_compute_field_inv in H.
    destruct H as [(H1 & _ & _) | (P1 & sb & rb & Hreach & Hb & Hg & Hcs & Hrb)].
    { rewrite H1 in Hc. symmetry in Hc. now apply app_single_neq in Hc. }
    rewrite Hcs in Hc.
    destruct (base_gen_error _ _ _ _ _ _ _ _ Hb Hc He) as [-> ->]. simpl in *.
    destruct Hrb as [Hr Hp]. split; [exact Hr|]. split; [exact Hg|].
    rewrite Hp.
    destruct Hreach as (rad & V & beta & alpha & Ra & Ro & _ & _ & _ & _ & _ & _ & ->).
    intros k Hk. simpl in Hk. repeat destruct Hk as [<-|Hk]; try contradiction;
      rewrite ?dict_get_set_neq by discriminate; rewrite dict_get_set_eq; discriminate.
Qed.

Lemma X7_witness :
  let c := fst (ex_disk ex_disk_params true) in
  let s0 := snd (ex_disk ex_disk_params true) in
  let (s1, r) := disk_compute_field ex_failing_get_B_field c 0 s0 in
  r = Err ValueError /\ galmag s1 = None /\
  dict_get "disk_dynamo_number" (parameters s1) <> None.
Proof.
  intros c s0.
  destruct (disk_compute_field ex_failing_get_B_field c 0 s0) as [s1 r] eqn:E.
  assert (Hm : exists m, gen_calls s1 = gen_calls s0 ++ [m]).
  { revert E. vm_compute. intros E. inversion E. eexists. reflexivity. }
  destruct Hm as [m Hm].
  destruct (proj1 (proj2 (X7_generator_error ex_failing_get_B_field c 0 s0 ValueError))
              s1 r m E Hm eq_refl) as (Hr & Hg & Ht).
  split; [exact Hr|]. split; [exact Hg|]. apply Ht. simpl. auto.
Defined.

Lemma dict_set_absent k v d : dict_get k d = None -> dict_set k v d = (d ++ [(k, v)])%list.
Proof.
  induction d as [|[k' v'] d IH]; simpl; [reflexivity|].
  destruct (String.eqb k k'); [discriminate|]. intros H. now rewrite IH.
Qed.

Lemma dict_remove_app_absent k d e :
  dict_get k d = None -> dict_remove k (d ++ e) = (d ++ dict_remove k e)%list.
Proof.
  induction d as [|[k' v'] d IH]; simpl; [reflexivity|].
  destruct (String.eqb k k'); [discriminate|]. intros H. now rewrite IH.
Qed.

Lemma dict_get_app k d e :
  dict_get k (d ++ e) = match dict_get k d with Some v => Some v | None => dict_get k e end.
Proof.
  induction d as [|[k' v'] d IH]; simpl; [reflexivity|].
  destruct (String.eqb k k'); [reflexivity | exact IH].
Qed.


(** Setting the absent names [k], innermost first, appends them; removing
    them again gives back the mapping. *)
Ltac set_absent k :=
  rewrite (dict_set_absent k)
    by (rewrite ?dict_get_app;
        repeat match goal with H : dict_get ?k' ?d = None |- context [dict_get ?k' ?d] =>
                 rewrite H end;
        reflexivity).

Ltac restore_absent :=
  rewrite <- ?app_assoc; simpl;
  repeat (rewrite dict_remove_app_absent by assumption; simpl);
  apply app_nil_r.

(** X8.  A disk or halo call that returns leaves the parameter mapping
    exactly as it found it (same entries, same order) when the caller's
    mapping held none of the temporary names. *)
Theorem X8_success_restores_mapping get_B_field c seed s s' a :
  ((forall k, In k disk_temporaries -> ~ In k (keys (parameters s))) ->
   disk_compute_field get_B_field c seed s = (s', Ok a) -> parameters s' = parameters s) /\
  ((forall k, In k halo_temporaries -> ~ In k (keys (parameters s))) ->
   halo_compute_field get_B_field c seed s = (s', Ok a) -> parameters s' = parameters s).
Proof.
  split.
  - intros Ht H. apply disk_compute_field_inv in H.
    destruct H as [(_ & _ & e & He) | (P1 & sb & rb & Hreach & Hb & _ & _ & Hrb)];
      [discriminate|].
    destruct rb as [a'|e]; destruct Hrb as [Hr Hp]; [|discriminate]. rewrite Hp.
    rewrite (base_compute_field_params _ _ _ _ _ _ Hb). simpl.
    destruct Hreach as (modes & h & S & alpha & beta & Ra & Ro & _ & _ & _ & _ & _ & _ & _ & ->).
    pose proof (proj2 (dict_get_none_keys "disk_modes_normalization" (parameters s))
                  (Ht "disk_modes_normalization" ltac:(simpl; auto))).
    pose proof (proj2 (dict_get_none_keys "disk_turbulent_induction" (parameters s))
                  (Ht "disk_turbulent_induction" ltac:(simpl; auto))).
    pose proof (proj2 (dict_get_none_keys "disk_dynamo_number" (parameters s))
                  (Ht "disk_dynamo_number" ltac:(simpl; auto))).
    set_absent "disk_modes_normalization". set_absent "disk_turbulent_induction".
    set_absent "disk_dynamo_number". restore_absent.
  - intros Ht H. apply halo_compute_field_inv in H.
    destruct H as [(_ & _ & e & He) | (P1 & sb & rb & Hreach & Hb & _ & _ & Hrb)];
      [discriminate|].
    destruct rb as [a'|e]; destruct Hrb as [Hr Hp]; [|discriminate]. rewrite Hp.
    rewrite (base_compute_field_params _ _ _ _ _ _ Hb). simpl.
    destruct Hreach as (rad & V & beta & alpha & Ra & Ro & _ & _ & _ & _ & _ & _ & ->).
    pose proof (proj2 (dict_get_none_keys "halo_turbulent_induction" (parameters s))
                  (Ht "halo_turbulent_induction" ltac:(simpl; auto))).
    pose proof (proj2 (dict_get_none_keys "halo_rotation_induction" (parameters s))
                  (Ht "halo_rotation_induction" ltac:(simpl; auto))).
    set_absent "halo_turbulent_induction". set_absent "halo_rotation_induction".
    restore_absent.
Qed.

Lemma X8_witness :
  let c := fst (ex_disk ex_disk_params true) in
  let s0 := snd (ex_disk ex_disk_params true) in
  parameters (fst (disk_compute_field ex_get_B_field c 0 s0)) = ex_disk_params.
Proof.
  intros c s0.
  destruct (disk_compute_field ex_get_B_field c 0 s0) as [s1 r] eqn:E.
  destruct r as [a|e]; [|revert E; vm_compute; intros E; inversion E].
  simpl. change ex_disk_params with (parameters s0).
  apply (proj1 (X8_success_restores_mapping ex_get_B_field c 0 s0 s1 a)); [|exact E].
  intros k Hk Hin. vm_compute in Hin.
  simpl in Hk. repeat destruct Hk as [<-|Hk]; try contradiction;
    repeat destruct Hin as [Hin|Hin]; try discriminate; contradiction.
Defined.

(** X10.  Failures that come before any temporary entry is written leave
    the whole state as it was: on the disk, a failing mode conversion; on
    the halo, a missing input or a failing first induction number.  A
    failure computing the halo's second number leaves only
    [halo_turbulent_induction] written. *)
Theorem X10_early_failures_keep_state get_B_field c seed s :
  (forall e, disk_mode_norm c (parameters s) = Err e ->
     disk_compute_field get_B_field c seed s = (s, Err e)) /\
  (forall k, In k halo_derived_inputs -> dict_get k (parameters s) = None ->
     exists k', halo_compute_field get_B_field c seed s = (s, Err (KeyError k'))) /\
  (forall r V beta alpha,
     dict_get "halo_radius" (parameters s) = Some r ->
     dict_get "halo_rotation_normalization" (parameters s) = Some V ->
     dict_get "halo_turbulent_diffusivity" (parameters s) = Some beta ->
     dict_get "halo_alpha_effect" (parameters s) = Some alpha ->
     (forall e, ratio_value r alpha beta = Err e ->
        halo_compute_field get_B_field c seed s = (s, Err e)) /\
     (forall Ra e, ratio_value r alpha beta = Ok Ra ->
        res_bind (py_neg r) (fun x => ratio_value x V beta) = Err e ->
        halo_compute_field get_B_field c seed s =
          (State (dict_set "halo_turbulent_induction" (VNum Ra) (parameters s))
                 (galmag s) (gen_calls s), Err e))).
Proof.
  destruct s as [ps g calls]. simpl. split; [|split].
  - intros e He. unfold disk_compute_field, mbind, get_params, lift.
    cbn -[disk_mode_norm]. rewrite He. reflexivity.
  - intros k Hin Habs.
    destruct (halo_compute_field get_B_field c seed (State ps g calls)) as [s' r] eqn:H.
    unfold halo_compute_field, mbind, get_params, lift, param_set, param_get,
      param_del, mret in H.
    cbn -[dict_set dict_getitem dict_del base_compute_field
          py_mul py_div py_neg to_value_dimensionless dict_remove] in H.
    split_res H; try (absent_input Hin Habs).
    all: inversion H; subst;
      match goal with
      | E : dict_getitem _ _ = Err _ |- _ =>
          apply dict_getitem_none in E; destruct E as [_ ->]
      end;
      eexists; reflexivity.
  - intros r V beta alpha Hr HV Hb Ha.
    split.
    + intros e He.
      unfold halo_compute_field, mbind, get_params, lift, param_set, param_get,
        param_del, mret.
      cbn -[dict_set dict_getitem dict_del base_compute_field
            py_mul py_div py_neg to_value_dimensionless dict_remove].
      unfold dict_getitem; rewrite Hr, HV, Hb, Ha. unfold ratio_value in He. rewrite He. reflexivity.
    + intros Ra e HRa He.
      unfold halo_compute_field, mbind, get_params, lift, param_set, param_get,
        param_del, mret.
      cbn -[dict_set dict_getitem dict_del base_compute_field
            py_mul py_div py_neg to_value_dimensionless dict_remove].
      unfold dict_getitem; rewrite Hr, HV, Hb, Ha. unfold ratio_value in HRa, He. rewrite HRa.
      cbn -[dict_set dict_getitem dict_del base_compute_field
            py_mul py_div py_neg to_value_dimensionless dict_remove].
      rewrite He. reflexivity.
Qed.

Lemma X10_witness :
  let c := fst (ex_disk ex_disk_params true) in
  let ch := fst (ex_halo ex_halo_params true) in
  let ps := dict_set "halo_rotation_normalization" (VQty 200 u_km) ex_halo_params in
  disk_compute_field ex_get_B_field c 0 (State [("mode_1", VQty 1 u_kpc)] None []) =
    (State [("mode_1", VQty 1 u_kpc)] None [], Err UnitConversionError) /\
  (exists k', halo_compute_field ex_get_B_field ch 0 (State [] None []) =
     (State [] None [], Err (KeyError k'))) /\
  exists Ra e, halo_compute_field ex_get_B_field ch 0 (State ps None []) =
    (State (dict_set "halo_turbulent_induction" (VNum Ra) ps) None [], Err e).
Proof.
  intros c ch ps. split; [|split].
  - apply (proj1 (X10_early_failures_keep_state ex_get_B_field c 0
             (State [("mode_1", VQty 1 u_kpc)] None []))).
    vm_compute. reflexivity.
  - apply (proj1 (proj2 (X10_early_failures_keep_state ex_get_B_field ch 0
             (State [] None []))) "halo_radius"); [simpl; auto | reflexivity].
  - destruct (proj2 (proj2 (X10_early_failures_keep_state ex_get_B_field ch 0
             (State ps None [])))
             (VQty 15 u_kpc) (VQty 200 u_km) (VQty 1 u_cm2_per_s)
             (VQty (1 # 2) u_km_per_s) eq_refl eq_refl eq_refl eq_refl)
      as [_ H].
    destruct (ratio_value (VQty 15 u_kpc) (VQty (1 # 2) u_km_per_s)
                (VQty 1 u_cm2_per_s)) as [Ra|e] eqn:HRa;
      [|vm_compute in HRa; discriminate].
    destruct (res_bind (py_neg (VQty 15 u_kpc))
                (fun x => ratio_value x (VQty 200 u_km) (VQty 1 u_cm2_per_s)))
      as [Ro|e] eqn:He; [vm_compute in He; discriminate|].
    exists Ra, e. exact (H Ra e eq_refl eq_refl).
Defined.

Lemma res_map_ok_forall2 {A B} (f : A -> res B) xs ys :
  res_map f xs = Ok ys -> Forall2 (fun x y => f x = Ok y) xs ys.
Proof.
  revert ys. induction xs as [|x xs IH]; intros ys H; simpl in H.
  - inversion H. constructor.
  - destruct (f x) as [y|e] eqn:Fx; simpl in H; [|discriminate].
    destruct (res_map f xs) as [ys'|e] eqn:E; simpl in H; [|discriminate].
    inversion H. constructor; auto.
Qed.

Lemma res_map_in_err {A B} (f : A -> res B) xs x :
  In x xs -> (forall y, f x <> Ok y) -> exists e, res_map f xs = Err e.
Proof.
  induction xs as [|x' xs IH]; simpl; [contradiction|]. intros [->|Hin] Hf.
  - destruct (f x) as [y|e]; [now destruct (Hf y)|]. now exists e.
  - destruct (f x') as [y|e]; simpl; [|now exists e].
    destruct (IH Hin Hf) as [e ->]. now exists e.
Qed.

Lemma to_value_kpc_non_length v :
  (forall q u, v = VQty q u -> udims u <> udims u_kpc) ->
  forall y, to_value_kpc v <> Ok y.
Proof.
  intros Hv y H. destruct v as [| |q u| | |]; unfold to_value_kpc in H; try discriminate H.
  destruct (dims_eqb (udims u) (udims u_kpc)) eqn:E; [|discriminate H].
  apply dims_eqb_true in E. destruct (Hv q u eq_refl E).
Qed.

(** X9.  Construction turns the grid box into kiloparsec numbers: each
    entry must be a length quantity, and the number handed to the GalMag
    generator times a kiloparsec is that length in SI units; resolution and
    grid type are passed unchanged.  A box entry that is not a length
    (a bare number or a quantity of another dimension) makes the base
    construction fail, and with it the halo construction and the disk
    construction with [number_of_modes] given. *)
Theorem X9_box_conversion g :
  (forall ga, base_init g = Ok ga ->
     gen_resolution ga = resolution g /\ gen_grid_type ga = grid_type g /\
     Forall2 (fun v x => exists q u, v = VQty q u /\ udims u = udims u_kpc /\
                          x * uscale u_kpc == si_value v)
             (box g) (gen_box ga)) /\
  (forall v, In v (box g) ->
     (forall q u, v = VQty q u -> udims u <> udims u_kpc) ->
     (exists e, base_init g = Err e) /\
     (forall ps keep kw, exists e, halo_init g ps keep kw = Err e) /\
     (forall ps keep kw n, number_of_modes_arg kw = Some n ->
        exists e, disk_init g ps keep kw = Err e)).
Proof.
  split.
  - intros ga H. unfold base_init in H.
    destruct (res_map to_value_kpc (box g)) as [xs|e] eqn:E; simpl in H;
      [|discriminate].
    inversion H; subst; simpl. split; [reflexivity|]. split; [reflexivity|].
    apply res_map_ok_forall2 in E. clear H.
    induction E as [|v x vs xs Hx _ IH]; constructor; [|exact IH].
    destruct v as [| |q u| | |]; unfold to_value_kpc in Hx; try discriminate Hx.
    destruct (dims_eqb (udims u) (udims u_kpc)) eqn:D; [|discriminate Hx].
    inversion Hx; subst. exists q, u. split; [reflexivity|].
    split; [now apply dims_eqb_true|]. unfold si_value; simpl.
    rewrite Qmult_comm. apply Qmult_div_r. unfold Qeq; simpl. discriminate.
  - intros v Hin Hv.
    destruct (res_map_in_err to_value_kpc (box g) v Hin
                (to_value_kpc_non_length v Hv)) as [e E].
    assert (Hb : base_init g = Err e) by (unfold base_init; now rewrite E).
    split; [now exists e|]. split.
    + intros ps keep kw. exists e. unfold halo_init. now rewrite Hb.
    + intros ps keep kw n Hn. exists e. unfold disk_init.
      rewrite Hn. simpl. now rewrite Hb.
Qed.

Lemma X9_witness :
  (exists ga, base_init ex_grid = Ok ga /\
     Forall2 (fun v x => exists q u, v = VQty q u /\ udims u = udims u_kpc /\
                          x * uscale u_kpc == si_value v)
             (box ex_grid) (gen_box ga)) /\
  exists e, halo_init (Grid [VQty 1 u_kpc; VNum 2; VQty 3 u_kpc] (2, 2, 2)%nat "cartesian")
              [] false default_halo_kwargs = Err e.
Proof.
  split.
  - destruct (base_init ex_grid) as [ga|e] eqn:E; [|vm_compute in E; discriminate].
    exists ga. split; [reflexivity|].
    exact (proj2 (proj2 (proj1 (X9_box_conversion ex_grid) ga E))).
  - apply (proj1 (proj2 (proj2 (X9_box_conversion
             (Grid [VQty 1 u_kpc; VNum 2; VQty 3 u_kpc] (2, 2, 2)%nat "cartesian"))
             (VNum 2) (or_intror (or_introl eq_refl))
             (fun q u H => ltac:(discriminate H))))).
Defined.
